(** * Per-class fixtures of [google.apputils.basetest]

    A shallow embedding of [BeforeAfterTestCaseMeta] (basetest.py), the
    metaclass that wraps [setUp], [tearDown] and every [test*] method of
    each class of a test hierarchy so that [setUpTestCase] and
    [tearDownTestCase] run once per leaf class.

    Python objects are modelled as follows.
    - A class object is identified by its name; the store maps names to
      class records (ancestors, own [__dict__], own [__tests_to_run],
      own before/after hooks).
    - A function object is a value of [func]: either a function declared
      in a class body, or one of the three closures the metaclass builds.
      The closures keep their captured variables as constructor arguments.
    - A test-case instance carries its class and the name of its test
      method; [self.__class__] is [type_of self].
    - Effects are threaded through a small state/trace/exception monad. *)

From stdpp Require Import gmap strings list fin_maps.

(** ** Exceptions and function metadata *)

Inductive exn :=
| AttributeError
| Failure (msg : string).

(** The three attributes [SetMethod] copies. *)
Record metadata := Metadata {
  __name__ : string;
  __doc__ : option string;
  __module__ : string }.

(** ** Function objects *)

(** [Declared] is a [def] of a class body; its body is a sequence of
    observable statements, possibly calling the implementation of the same
    method in the base class.  The three wrappers are the nested functions
    [setUp], [tearDown] and [test] of basetest.py with their free
    variables: [test_names] and [cls_setUp]; [cls_tearDown]; [cls_test] and
    [test_name]. *)
Inductive func :=
| Declared (md : metadata) (b : body)
| setUp_closure (md : metadata) (test_names : gset string) (cls_setUp : func)
| tearDown_closure (md : metadata) (cls_tearDown : func)
| test_closure (md : metadata) (cls_test : func) (test_name : string)
with body :=
| Return
| Emit (l : string) (k : body)
| Raise (e : exn)
| CallBase (f : func) (k : body).

Scheme func_body_ind := Induction for func Sort Prop
  with body_func_ind := Induction for body Sort Prop.
Combined Scheme func_body_mutind from func_body_ind, body_func_ind.

Definition func_meta (f : func) : metadata :=
  match f with
  | Declared md _ => md
  | setUp_closure md _ _ => md
  | tearDown_closure md _ => md
  | test_closure md _ _ => md
  end.

Definition set_meta (md : metadata) (f : func) : func :=
  match f with
  | Declared _ b => Declared md b
  | setUp_closure _ tn g => setUp_closure md tn g
  | tearDown_closure _ g => tearDown_closure md g
  | test_closure _ g n => test_closure md g n
  end.

(** ** Classes and the store *)

(** The value of [cls.__tests_to_run]: the sentinel [None] or a set. *)
Inductive pyval :=
| PyNone
| PySet (s : gset string).

(** What a user-supplied [setUpTestCase] / [tearDownTestCase] does. *)
Inductive hook :=
| Pass
| Fails (e : exn).

Record class := Class {
  c_ancestors : list string;          (* cls.__mro__[1:] *)
  c_dict : gmap string func;          (* the methods of cls.__dict__ *)
  c_tests_to_run : option pyval;      (* own __tests_to_run, if set *)
  c_setUpTestCase : option hook;      (* own setUpTestCase, if any *)
  c_tearDownTestCase : option hook }. (* own tearDownTestCase, if any *)

Abbreviation store := (gmap string class).

Definition with_dict (d : gmap string func) (c : class) : class :=
  Class (c_ancestors c) d (c_tests_to_run c)
        (c_setUpTestCase c) (c_tearDownTestCase c).

Definition with_tests_to_run (v : pyval) (c : class) : class :=
  Class (c_ancestors c) (c_dict c) (Some v)
        (c_setUpTestCase c) (c_tearDownTestCase c).

Definition with_hooks (b a : hook) (c : class) : class :=
  Class (c_ancestors c) (c_dict c) (c_tests_to_run c) (Some b) (Some a).

(** [cls.__mro__]: the class itself, then its ancestors. *)
Definition mro (σ : store) (cls : string) : list string :=
  match σ !! cls with
  | Some c => cls :: c_ancestors c
  | None => []
  end.

(** Attribute lookup along a linearization: the first class that has the
    attribute in its own namespace wins; the owner is returned too. *)
Fixpoint lookup_mro {A} (get : class → option A) (σ : store)
    (l : list string) : option (string * A) :=
  match l with
  | [] => None
  | c :: l' =>
      match σ !! c ≫= get with
      | Some a => Some (c, a)
      | None => lookup_mro get σ l'
      end
  end.

Definition getattr_method (σ : store) (cls name : string) : option func :=
  snd <$> lookup_mro (λ c, c_dict c !! name) σ (mro σ cls).

(** [setattr(cls, name, f)] writes into the class's own namespace. *)
Definition setattr_method (cls name : string) (f : func) (σ : store) : store :=
  alter (λ c, with_dict (<[name := f]> (c_dict c)) c) cls σ.

Definition find_tests_to_run (σ : store) (cls : string)
    : option (string * pyval) :=
  lookup_mro c_tests_to_run σ (mro σ cls).

Definition assign_tests_to_run (cls : string) (v : pyval) (σ : store) : store :=
  alter (with_tests_to_run v) cls σ.

(** ** Events, instances and the effect monad *)

Inductive event :=
| EBefore (leaf : string)            (* self.setUpTestCase() is called *)
| EAfter (leaf : string)             (* self.tearDownTestCase() is called *)
| EUser (leaf : string) (l : string). (* a statement of a declared body *)

Record instance := Instance {
  type_of : string;          (* self.__class__ *)
  testMethodName : string }.

Inductive result (A : Type) :=
| Ok (a : A)
| Exc (e : exn).
Arguments Ok {A} a.
Arguments Exc {A} e.

Definition M (A : Type) : Type := store → store * list event * result A.

(** The three components of what a computation leaves behind. *)
Definition st {A} (x : store * list event * A) : store := x.1.1.
Definition tr {A} (x : store * list event * A) : list event := x.1.2.
Definition res {A} (x : store * list event * A) : A := x.2.

Definition ret {A} (a : A) : M A := λ σ, (σ, [], Ok a).

Definition throw {A} (e : exn) : M A := λ σ, (σ, [], Exc e).

Definition bind {A B} (c : M A) (k : A → M B) : M B := λ σ,
  let '(σ1, t1, r1) := c σ in
  match r1 with
  | Ok a => let '(σ2, t2, r2) := k a σ1 in (σ2, t1 ++ t2, r2)
  | Exc e => (σ1, t1, Exc e)
  end.

Notation "'let!' x := c 'in' k" := (bind c (λ x, k))
  (at level 10, x name, c at level 100, k at level 200, only parsing).
Notation "c >> k" := (bind c (λ _, k))
  (at level 100, k at level 200, right associativity, only parsing).

Definition emit (e : event) : M unit := λ σ, (σ, [e], Ok tt).

(** Reading [leaf.__tests_to_run]. *)
Definition read_tests_to_run (leaf : string) : M pyval := λ σ,
  match find_tests_to_run σ leaf with
  | Some (_, v) => (σ, [], Ok v)
  | None => (σ, [], Exc AttributeError)
  end.

(** [leaf.__tests_to_run = v]. *)
Definition write_tests_to_run (leaf : string) (v : pyval) : M unit := λ σ,
  (assign_tests_to_run leaf v σ, [], Ok tt).

(** [leaf.__tests_to_run.discard(test_name)]: the set object found by the
    lookup is mutated in place; [None] has no [discard]. *)
Definition discard (leaf test_name : string) : M unit := λ σ,
  match find_tests_to_run σ leaf with
  | Some (owner, PySet s) =>
      (assign_tests_to_run owner (PySet (s ∖ {[test_name]})) σ, [], Ok tt)
  | Some (_, PyNone) => (σ, [], Exc AttributeError)
  | None => (σ, [], Exc AttributeError)
  end.

Definition run_hook (h : hook) : M unit :=
  match h with
  | Pass => ret tt
  | Fails e => throw e
  end.

(** [self.setUpTestCase()]. *)
Definition call_setUpTestCase (self : instance) : M unit := λ σ,
  match lookup_mro c_setUpTestCase σ (mro σ (type_of self)) with
  | Some (_, h) => (emit (EBefore (type_of self)) >> run_hook h) σ
  | None => (σ, [], Exc AttributeError)
  end.

(** [self.tearDownTestCase()]. *)
Definition call_tearDownTestCase (self : instance) : M unit := λ σ,
  match lookup_mro c_tearDownTestCase σ (mro σ (type_of self)) with
  | Some (_, h) => (emit (EAfter (type_of self)) >> run_hook h) σ
  | None => (σ, [], Exc AttributeError)
  end.

(** ** Test names *)

(** [dir(cls)] restricted to methods: every name bound along the MRO. *)
Definition dir (σ : store) (cls : string) : gset string :=
  ⋃ ((λ c, from_option (λ k, dom (c_dict k)) ∅ (σ !! c)) <$> mro σ cls).

(** [unittest.defaultTestLoader.getTestCaseNames(cls)]: the callable
    attributes of [cls] whose name starts with [test]. *)
Definition getTestCaseNames (σ : store) (cls : string) : gset string :=
  filter (λ n, String.prefix "test" n = true) (dir σ cls).

Definition this_module : string := "google.apputils.basetest".

(** ** The metaclass *)

Module BeforeAfterTestCaseMeta.

(** The nested [setUp] of [SetSetUpAttr] (basetest.py, l.177-210). *)
Definition setUp (test_names : gset string) (cls_setUp : instance → M unit)
    (self : instance) : M unit :=
  let leaf := type_of self in
  let! v := read_tests_to_run leaf in
  (match v with
   | PyNone =>
       write_tests_to_run leaf (PySet test_names) >>
       call_setUpTestCase self
   | PySet _ => ret tt
   end) >>
  cls_setUp self.

(** The nested [tearDown] of [SetTearDownAttr] (l.224-230). *)
Definition tearDown (cls_tearDown : instance → M unit)
    (self : instance) : M unit :=
  cls_tearDown self >>
  let leaf := type_of self in
  let! v := read_tests_to_run leaf in
  match v with
  | PySet s =>
      if decide (size s = 0)
      then write_tests_to_run leaf PyNone >> call_tearDownTestCase self
      else ret tt
  | PyNone => ret tt
  end.

(** The nested [test] of [SetTestMethodAttrs] (l.260-263). *)
Definition test (cls_test : instance → M unit) (test_name : string)
    (self : instance) : M unit :=
  let leaf := type_of self in
  discard leaf test_name >>
  cls_test self.

(** [SetMethod] (l.155-161): like [setattr], but the replacement takes
    over the name, doc and module of the attribute it replaces. *)
Definition SetMethod (cls method_name : string) (replacement : func)
    (σ : store) : option store :=
  original ← getattr_method σ cls method_name;
  let replacement := set_meta (func_meta original) replacement in
  Some (setattr_method cls method_name replacement σ).

(** [SetSetUpAttr] (l.164-213). *)
Definition SetSetUpAttr (cls : string) (test_names : gset string)
    (σ : store) : option store :=
  cls_setUp ← getattr_method σ cls "setUp";
  let setUp := setUp_closure (Metadata "setUp" None this_module)
                             test_names cls_setUp in
  SetMethod cls "setUp" setUp σ.

(** [SetTearDownAttr] (l.216-232). *)
Definition SetTearDownAttr (cls : string) (σ : store) : option store :=
  cls_tearDown ← getattr_method σ cls "tearDown";
  let tearDown := tearDown_closure (Metadata "tearDown" None this_module)
                                   cls_tearDown in
  SetMethod cls "tearDown" tearDown σ.

(** The loop of [SetTestMethodAttrs] (l.252-265) over the names still to
    be wrapped. *)
Fixpoint wrap_tests (cls : string) (names : list string) (σ : store)
    : option store :=
  match names with
  | [] => Some σ
  | test_name :: names' =>
      cls_test ← getattr_method σ cls test_name;
      let test := test_closure (Metadata "test" None this_module)
                               cls_test test_name in
      σ' ← SetMethod cls test_name test σ;
      wrap_tests cls names' σ'
  end.

(** [SetTestMethodAttrs] (l.235-265). *)
Definition SetTestMethodAttrs (cls : string) (test_names : gset string)
    (σ : store) : option store :=
  wrap_tests cls (elements test_names) σ.

(** [SetBeforeAfterTestCaseAttr] (l.268-273): both hooks of [TestCase]
    become [lambda self: None]. *)
Definition SetBeforeAfterTestCaseAttr (σ : store) : store :=
  alter (with_hooks Pass Pass) "TestCase" σ.

(** [BeforeAfterTestCaseMeta.__init__] (l.108-151), after
    [type.__init__]. *)
Definition __init__ (cls : string) (σ : store) : option store :=
  let test_names := getTestCaseNames σ cls in
  let σ := assign_tests_to_run cls PyNone σ in
  σ ← SetSetUpAttr cls test_names σ;
  σ ← SetTearDownAttr cls σ;
  σ ← SetTestMethodAttrs cls test_names σ;
  Some (SetBeforeAfterTestCaseAttr σ).

End BeforeAfterTestCaseMeta.

(** Calling a function object on [self]. *)
Fixpoint call (f : func) (self : instance) {struct f} : M unit :=
  match f with
  | Declared _ b => exec b self
  | setUp_closure _ test_names cls_setUp =>
      BeforeAfterTestCaseMeta.setUp test_names (call cls_setUp) self
  | tearDown_closure _ cls_tearDown =>
      BeforeAfterTestCaseMeta.tearDown (call cls_tearDown) self
  | test_closure _ cls_test test_name =>
      BeforeAfterTestCaseMeta.test (call cls_test) test_name self
  end
with exec (b : body) (self : instance) {struct b} : M unit :=
  match b with
  | Return => ret tt
  | Emit l k => emit (EUser (type_of self) l) >> exec k self
  | Raise e => throw e
  | CallBase f k => call f self >> exec k self
  end.

(** ** Class definitions *)

(** The source of a method body, as written in a class statement.
    [SSuper] is the call [Base.m(self)] of the implementation the base
    class offers for the method being defined. *)
Inductive src_body :=
| SReturn
| SEmit (l : string) (k : src_body)
| SRaise (e : exn)
| SSuper (k : src_body).

Record class_decl := ClassDecl {
  d_name : string;
  d_base : string;
  d_methods : gmap string (metadata * src_body);
  d_setUpTestCase : option hook;
  d_tearDownTestCase : option hook }.

(** [Base.m] is looked up when the body runs.  The method tables of the
    classes that exist when a class is defined are never rebound later, so
    the function found at definition time is the one a run finds; a
    missing attribute raises [AttributeError] at the call. *)
Fixpoint resolve (super : option func) (b : src_body) : body :=
  match b with
  | SReturn => Return
  | SEmit l k => Emit l (resolve super k)
  | SRaise e => Raise e
  | SSuper k =>
      match super with
      | Some f => CallBase f (resolve super k)
      | None => Raise AttributeError
      end
  end.

Definition declare (σ : store) (base name : string)
    (m : metadata * src_body) : option func :=
  Some (Declared m.1 (resolve (getattr_method σ base name) m.2)).

(** The class statement up to [type.__init__]: a new class object with
    the declared namespace.  Class names identify class objects, so a
    name is declared once, and its base must exist. *)
Definition class_statement (d : class_decl) (σ : store) : option store :=
  match σ !! d_name d with
  | Some _ => None
  | None =>
      b ← σ !! d_base d;
      Some (<[d_name d :=
              Class (d_base d :: c_ancestors b)
                    (map_imap (declare σ (d_base d)) (d_methods d))
                    None (d_setUpTestCase d) (d_tearDownTestCase d)]> σ)
  end.

(** A class statement whose metaclass is [BeforeAfterTestCaseMeta]. *)
Definition define_class (d : class_decl) (σ : store) : option store :=
  class_statement d σ ≫= BeforeAfterTestCaseMeta.__init__ (d_name d).

Definition define_classes (ds : list class_decl) (σ : store) : option store :=
  foldl (λ o d, o ≫= define_class d) (Some σ) ds.

(** [basetest.TestCase] before any instrumented class exists.  It is not
    instrumented itself; [setUp] and [tearDown] are the empty methods it
    inherits from [unittest.TestCase]. *)
Definition TestCase : class :=
  Class []
    {[ "setUp" := Declared (Metadata "setUp" None "unittest") Return;
       "tearDown" := Declared (Metadata "tearDown" None "unittest") Return ]}
    None None None.

Definition initial_store : store := {[ "TestCase" := TestCase ]}.

(** ** Running tests *)

Definition call_method (name : string) (self : instance) : M unit := λ σ,
  match getattr_method σ (type_of self) name with
  | Some f => call f self σ
  | None => (σ, [], Exc AttributeError)
  end.

Definition errors {A} (r : result A) : list exn :=
  match r with
  | Ok _ => []
  | Exc e => [e]
  end.

(** [unittest.TestCase.run] once [setUp] has returned: the test method
    runs, and [tearDown] runs whatever the test method did. *)
Definition run_test (self : instance) (σ : store)
    : store * list event * list exn :=
  let '(σ2, t2, r2) := call_method (testMethodName self) self σ in
  let '(σ3, t3, r3) := call_method "tearDown" self σ2 in
  (σ3, t2 ++ t3, errors r2 ++ errors r3).

(** [unittest.TestCase.run]: when [setUp] raises, the error is recorded
    and neither the test method nor [tearDown] runs.  The recorded errors
    are returned. *)
Definition run (self : instance) (σ : store)
    : store * list event * list exn :=
  let '(σ1, t1, r1) := call_method "setUp" self σ in
  match r1 with
  | Exc e => (σ1, t1, [e])
  | Ok _ =>
      let x := run_test self σ1 in
      (st x, t1 ++ tr x, res x)
  end.

(** A sequential runner: each instance runs to completion before the
    next one starts. *)
Fixpoint run_all (suite : list instance) (σ : store)
    : store * list event * list exn :=
  match suite with
  | [] => (σ, [], [])
  | self :: suite' =>
      let '(σ1, t1, e1) := run self σ in
      let '(σ2, t2, e2) := run_all suite' σ1 in
      (σ2, t1 ++ t2, e1 ++ e2)
  end.

(** The suite that runs the named tests of one class, in order. *)
Definition suite_of (cls : string) (names : list string) : list instance :=
  Instance cls <$> names.

(** ** A sample hierarchy *)

Module Sample.

Definition meta_of (n : string) : metadata := Metadata n None "sample_test".

Definition plain (l : string) : metadata * src_body :=
  (meta_of l, SEmit l SReturn).

(** [class A(TestCase)]: hooks, [setUp], [tearDown], no tests. *)
Definition A : class_decl :=
  ClassDecl "A" "TestCase"
    {[ "setUp" := plain "A.setUp"; "tearDown" := plain "A.tearDown" ]}
    (Some Pass) (Some Pass).

(** [class B(A)]: three tests, one of them failing. *)
Definition B : class_decl :=
  ClassDecl "B" "A"
    {[ "test1" := plain "t1";
       "test2" := (meta_of "test2", SEmit "t2" (SRaise (Failure "boom")));
       "test3" := plain "t3" ]}
    None None.

(** [class C(A)]: two tests. *)
Definition C : class_decl :=
  ClassDecl "C" "A" {[ "testU1" := plain "u1"; "testU2" := plain "u2" ]}
    None None.

Definition hierarchy : option store :=
  define_classes [A; B; C] initial_store.

End Sample.

(** * The vocabulary of the properties *)

(** The class's own [__tests_to_run]. *)
Definition state_of (σ : store) (cls : string) : option pyval :=
  σ !! cls ≫= c_tests_to_run.

(** The [setUpTestCase] / [tearDownTestCase] an instance of [cls] finds. *)
Definition before_hook (σ : store) (cls : string) : option hook :=
  snd <$> lookup_mro c_setUpTestCase σ (mro σ cls).

Definition after_hook (σ : store) (cls : string) : option hook :=
  snd <$> lookup_mro c_tearDownTestCase σ (mro σ cls).

(** The outcome of calling a hook. *)
Definition hook_result (h : hook) : result unit :=
  match h with
  | Pass => Ok tt
  | Fails e => Exc e
  end.

(** Calling a hook: the call is logged, then the hook does what it does;
    a class without the hook raises [AttributeError]. *)
Definition hook_call (ev : event) (h : option hook) (σ : store)
    : store * list event * result unit :=
  match h with
  | Some h => (σ, [ev], hook_result h)
  | None => (σ, [], Exc AttributeError)
  end.

(** What the wrapped [tearDown] does after the wrapped function has
    returned in a state [v]. *)
Definition after_tearDown (leaf : string) (h : option hook) (v : pyval)
    (σ : store) : store * list event * result unit :=
  match v with
  | PySet s =>
      if decide (size s = 0)
      then hook_call (EAfter leaf) h (assign_tests_to_run leaf PyNone σ)
      else (σ, [], Ok tt)
  | PyNone => (σ, [], Ok tt)
  end.

(** The class of the instance an event comes from. *)
Definition event_class (e : event) : string :=
  match e with
  | EBefore c => c
  | EAfter c => c
  | EUser c _ => c
  end.

(** Events of declared bodies, as opposed to hook calls. *)
Definition is_user (e : event) : bool :=
  match e with
  | EUser _ _ => true
  | _ => false
  end.

(** The three kinds of method the metaclass wraps. *)
Inductive role :=
| RSetUp
| RTearDown
| RTest (n : string).

#[global] Instance role_eq_dec : EqDecision role.
Proof. solve_decision. Defined.

(** [plays r f]: every closure inside [f] is the wrapper that belongs to
    the method [r]; this is what [SetMethod] stores under the name of
    [r], since a declared body calls its base under the same name. *)
Fixpoint plays (r : role) (f : func) : bool :=
  match f with
  | Declared _ b => body_plays r b
  | setUp_closure _ _ g => bool_decide (r = RSetUp) && plays r g
  | tearDown_closure _ g => bool_decide (r = RTearDown) && plays r g
  | test_closure _ g n => bool_decide (r = RTest n) && plays r g
  end
with body_plays (r : role) (b : body) : bool :=
  match b with
  | Return => true
  | Emit _ k => body_plays r k
  | Raise _ => true
  | CallBase f k => plays r f && body_plays r k
  end.

(** [returns f]: no declared body inside [f] raises. *)
Fixpoint returns (f : func) : bool :=
  match f with
  | Declared _ b => body_returns b
  | setUp_closure _ _ g => returns g
  | tearDown_closure _ g => returns g
  | test_closure _ g _ => returns g
  end
with body_returns (b : body) : bool :=
  match b with
  | Return => true
  | Emit _ k => body_returns k
  | Raise _ => false
  | CallBase f k => returns f && body_returns k
  end.

(** The states in which the wrappers of a role do nothing. *)
Definition quiet (r : role) (v : pyval) : Prop :=
  match r, v with
  | RSetUp, PySet _ => True
  | RSetUp, PyNone => False
  | RTearDown, PySet s => size s ≠ 0
  | RTearDown, PyNone => True
  | RTest n, PySet s => n ∉ s
  | RTest _, PyNone => False
  end.

(** What a call does to the trace when the after-class hook fires
    inside it: user events, the hook, user events. *)
Definition fires_after (leaf : string) (t : list event) : Prop :=
  ∃ t1 t2, t = t1 ++ EAfter leaf :: t2 ∧ Forall is_user t1 ∧ Forall is_user t2.

(** What the metaclass leaves behind for a class: its own
    [__tests_to_run], a wrapper around each lifecycle method that closes
    over the test names the class can see, and both hooks. *)
Record instrumented (σ : store) (leaf : string) : Prop := {
  i_state : is_Some (state_of σ leaf);
  i_setUp : ∃ md g,
    getattr_method σ leaf "setUp"
      = Some (setUp_closure md (getTestCaseNames σ leaf) g)
    ∧ plays RSetUp g;
  i_tearDown : ∃ md g,
    getattr_method σ leaf "tearDown" = Some (tearDown_closure md g)
    ∧ plays RTearDown g;
  i_test : ∀ n, n ∈ getTestCaseNames σ leaf → ∃ md g,
    getattr_method σ leaf n = Some (test_closure md g n)
    ∧ plays (RTest n) g;
  i_before : is_Some (before_hook σ leaf);
  i_after : is_Some (after_hook σ leaf) }.

(** The lifecycle methods and hooks of a class complete: no declared
    [setUp] or [tearDown] body raises and both hooks pass. *)
Definition completes (σ : store) (leaf : string) : Prop :=
  from_option returns false (getattr_method σ leaf "setUp") ∧
  from_option returns false (getattr_method σ leaf "tearDown") ∧
  before_hook σ leaf = Some Pass ∧
  after_hook σ leaf = Some Pass.

(** The store while a new class [name] with base [base] (whose record
    is [b]) is being instrumented: only its namespace [D] and its
    [__tests_to_run] vary. *)
Definition put (σ : store) (name base : string) (b : class)
    (hb ha : option hook) (D : gmap string func) (tv : option pyval)
    : store :=
  <[name := Class (base :: c_ancestors b) D tv hb ha]> σ.

(** The role a method name stands for. *)
Definition role_of (name : string) : option role :=
  if decide (name = "setUp") then Some RSetUp
  else if decide (name = "tearDown") then Some RTearDown
  else if String.prefix "test" name then Some (RTest name)
  else None.

(** Every function a class offers under a lifecycle or test name plays
    the role of that name. *)
Definition store_roles (σ : store) : Prop :=
  ∀ cls nm f r, getattr_method σ cls nm = Some f → role_of nm = Some r →
                plays r f.

(** Every function the new class offers plays the role of its name. *)
Definition visible_roles (σ : store) (name base : string) (b : class)
    (hb ha : option hook) (D : gmap string func) : Prop :=
  ∀ nm f r, getattr_method (put σ name base b hb ha D None) name nm = Some f →
            role_of nm = Some r → plays r f.

(** Both hooks of a class are [lambda self: None]. *)
Definition hooks_pass (c : class) : Prop :=
  c_setUpTestCase c = Some Pass ∧ c_tearDownTestCase c = Some Pass.

(** The invariant of reachable stores.  [TestCase] is the root and has
    no [__tests_to_run]; ancestors exist; every other class derives from
    [TestCase], has its own [__tests_to_run] and, in its own namespace, a
    wrapper for [setUp], for [tearDown] and for every test name it can
    see; once such a class exists [TestCase] has both default hooks. *)
Record wf (σ : store) : Prop := {
  wf_root : ∃ tc, σ !! "TestCase" = Some tc ∧ c_ancestors tc = []
                  ∧ c_tests_to_run tc = None;
  wf_closed : ∀ cls c a,
    σ !! cls = Some c → a ∈ c_ancestors c → is_Some (σ !! a);
  wf_derived : ∀ cls c, σ !! cls = Some c → cls ≠ "TestCase" →
    "TestCase" ∈ c_ancestors c ∧ is_Some (c_tests_to_run c);
  wf_hooks : ∀ cls, is_Some (σ !! cls) → cls ≠ "TestCase" →
    ∃ tc, σ !! "TestCase" = Some tc ∧ hooks_pass tc;
  wf_roles : store_roles σ;
  wf_wrapped : ∀ cls c, σ !! cls = Some c → cls ≠ "TestCase" →
    (∃ md g, c_dict c !! "setUp"
             = Some (setUp_closure md (getTestCaseNames σ cls) g)) ∧
    (∃ md g, c_dict c !! "tearDown" = Some (tearDown_closure md g)) ∧
    (∀ n, n ∈ getTestCaseNames σ cls →
          ∃ md g, c_dict c !! n = Some (test_closure md g n)) }.

(** The namespace of a class statement, before instrumentation. *)
Definition declared_dict (σ : store) (d : class_decl) : gmap string func :=
  map_imap (declare σ (d_base d)) (d_methods d).

(** The stores a program can reach: from the initial one, by defining
    classes and by running tests. *)
Inductive reachable : store → Prop :=
| reachable_initial : reachable initial_store
| reachable_define d σ σ' :
    reachable σ → define_class d σ = Some σ' → reachable σ'
| reachable_run self σ :
    reachable σ → reachable (st (run self σ)).

(** C2 as the specification words it: after a before-class hook that
    raised, the class is still at the sentinel and the next wrapped
    [setUp] calls the hook again. *)
Definition before_hook_is_retried (σ : store) (self next : instance) : Prop :=
  state_of (st (run self σ)) (type_of self) = Some PyNone ∧
  EBefore (type_of self) ∈ tr (call_method "setUp" next (st (run self σ))).

(** The set is drained: not the sentinel, and empty. *)
Definition drained (v : pyval) : Prop :=
  match v with
  | PySet s => size s = 0
  | PyNone => False
  end.

#[global] Instance drained_dec v : Decision (drained v).
Proof. destruct v; cbn; apply _. Defined.

(** Function objects built by the metaclass. *)
Definition is_wrapper (f : func) : bool :=
  match f with
  | Declared _ _ => false
  | _ => true
  end.

(** The trace of a complete run of one class: the before-class hook,
    user events, the after-class hook, user events. *)
Definition once_each (leaf : string) (t : list event) : Prop :=
  ∃ t1 t2, t = EBefore leaf :: t1 ++ EAfter leaf :: t2
           ∧ Forall is_user t1 ∧ Forall is_user t2.

(** The wrappers that the classes of a chain put around an inherited
    method, outermost first: each level wraps what it inherits, with its
    own metadata and, for [setUp], its own test names. *)
Fixpoint rewrap_setUp (layers : list (metadata * gset string)) (f : func)
    : func :=
  match layers with
  | [] => f
  | (md, tn) :: layers' => setUp_closure md tn (rewrap_setUp layers' f)
  end.

Fixpoint rewrap_tearDown (layers : list metadata) (f : func) : func :=
  match layers with
  | [] => f
  | md :: layers' => tearDown_closure md (rewrap_tearDown layers' f)
  end.

Fixpoint rewrap_test (layers : list metadata) (n : string) (f : func)
    : func :=
  match layers with
  | [] => f
  | md :: layers' => test_closure md (rewrap_test layers' n f) n
  end.

(** The instances of one class in a schedule. *)
Definition instances_of (cls : string) (sched : list instance)
    : list instance :=
  filter (λ self, type_of self = cls) sched.

(** The events of one class in a trace. *)
Definition events_of (cls : string) (t : list event) : list event :=
  filter (λ e, event_class e = cls) t.

(** ** Sample hierarchies *)

Module Examples.

(** [A], [B(A)] and [C(A)] of [Sample]. *)
Definition store : gmap string class := default ∅ Sample.hierarchy.

(** A class whose before-class hook raises. *)
Definition F : class_decl :=
  ClassDecl "F" "TestCase"
    {[ "test1" := Sample.plain "t1"; "test2" := Sample.plain "t2" ]}
    (Some (Fails (Failure "no fixture"))) (Some Pass).

Definition flaky : gmap string class :=
  default ∅ (define_classes [F] initial_store).

(** A class whose after-class hook raises. *)
Definition G : class_decl :=
  ClassDecl "G" "TestCase" {[ "test1" := Sample.plain "t1" ]}
    (Some Pass) (Some (Fails (Failure "cannot release"))).

Definition leaky : gmap string class :=
  default ∅ (define_classes [G] initial_store).

(** [A] alone, and the two steps of the definition of [B(A)]. *)
Definition only_A : gmap string class :=
  default ∅ (define_classes [Sample.A] initial_store).

Definition B_declared : gmap string class :=
  default ∅ (class_statement Sample.B only_A).

Definition B_instrumented : gmap string class :=
  default ∅ (BeforeAfterTestCaseMeta.__init__ "B" B_declared).

(** [Leaf(Base)] overrides [tearDown]: it calls [Base.tearDown(self)]
    and then cleans up after itself. *)
Definition Base : class_decl :=
  ClassDecl "Base" "TestCase"
    {[ "tearDown" :=
         (Sample.meta_of "tearDown", SEmit "Base.tearDown" SReturn) ]}
    (Some Pass) (Some Pass).

Definition Leaf : class_decl :=
  ClassDecl "Leaf" "Base"
    {[ "tearDown" :=
         (Sample.meta_of "tearDown",
          SSuper (SEmit "Leaf.cleanup" SReturn));
       "test1" := Sample.plain "t1" ]}
    None None.

Definition overriding : gmap string class :=
  default ∅ (define_classes [Base; Leaf] initial_store).

End Examples.

(** * Properties *)
(** ** The store *)

Lemma lookup_mro_ext {A} (get : class → option A) (σ σ' : store) l :
  (∀ c, c ∈ l → σ !! c ≫= get = σ' !! c ≫= get) →
  lookup_mro get σ l = lookup_mro get σ' l.
Proof.
  induction l as [|c l IH]; intros Hl; [done|].
  cbn. rewrite <- (Hl c) by (left; done).
  rewrite IH; [done|]. intros c' Hc'. apply Hl. by right.
Qed.

Lemma mro_alter_ancestors (f : class → class) cls (σ : store) c' :
  (∀ k, c_ancestors (f k) = c_ancestors k) →
  mro (alter f cls σ) c' = mro σ c'.
Proof.
  intros Hf. unfold mro. rewrite lookup_alter.
  case_decide as Heq; [subst|done].
  destruct (σ !! c') as [k|]; cbn; [by rewrite Hf|done].
Qed.

Lemma lookup_mro_alter {A} (get : class → option A) (f : class → class)
    cls (σ : store) l :
  (∀ k, get (f k) = get k) →
  lookup_mro get (alter f cls σ) l = lookup_mro get σ l.
Proof.
  intros Hf. apply lookup_mro_ext. intros c _.
  rewrite lookup_alter. case_decide; [subst|done].
  destruct (σ !! c); cbn; [apply Hf|done].
Qed.

Lemma mro_assign cls v σ c' :
  mro (assign_tests_to_run cls v σ) c' = mro σ c'.
Proof. by apply mro_alter_ancestors. Qed.

Lemma getattr_method_assign cls v σ c' name :
  getattr_method (assign_tests_to_run cls v σ) c' name
  = getattr_method σ c' name.
Proof.
  unfold getattr_method. rewrite mro_assign. unfold assign_tests_to_run.
  by rewrite (lookup_mro_alter (λ c, c_dict c !! name)).
Qed.

Lemma lookup_before_assign cls v σ l :
  lookup_mro c_setUpTestCase (assign_tests_to_run cls v σ) l
  = lookup_mro c_setUpTestCase σ l.
Proof. by apply lookup_mro_alter. Qed.

Lemma lookup_after_assign cls v σ l :
  lookup_mro c_tearDownTestCase (assign_tests_to_run cls v σ) l
  = lookup_mro c_tearDownTestCase σ l.
Proof. by apply lookup_mro_alter. Qed.

Lemma state_of_assign_eq cls v σ :
  is_Some (σ !! cls) → state_of (assign_tests_to_run cls v σ) cls = Some v.
Proof.
  intros [c Hc]. unfold state_of, assign_tests_to_run.
  by rewrite lookup_alter_eq, Hc.
Qed.

Lemma state_of_assign_ne cls v σ c' :
  cls ≠ c' → state_of (assign_tests_to_run cls v σ) c' = state_of σ c'.
Proof.
  intros Hne. unfold state_of, assign_tests_to_run.
  by rewrite lookup_alter_ne.
Qed.

Lemma state_of_is_Some σ cls v : state_of σ cls = Some v → is_Some (σ !! cls).
Proof. unfold state_of. destruct (σ !! cls); [eauto|done]. Qed.

Lemma assign_same cls v σ :
  state_of σ cls = Some v → assign_tests_to_run cls v σ = σ.
Proof.
  intros Hv. apply alter_id. intros c Hc.
  unfold state_of in Hv. rewrite Hc in Hv. cbn in Hv.
  destruct c; cbn in *. unfold with_tests_to_run; cbn. by rewrite Hv.
Qed.

Lemma assign_assign cls v w σ :
  assign_tests_to_run cls v (assign_tests_to_run cls w σ)
  = assign_tests_to_run cls v σ.
Proof.
  apply map_eq. intros c. unfold assign_tests_to_run.
  destruct (decide (cls = c)) as [->|Hne].
  - rewrite !lookup_alter_eq. by destruct (σ !! c).
  - by rewrite !lookup_alter_ne.
Qed.

Lemma assign_comm c1 c2 v w σ :
  c1 ≠ c2 →
  assign_tests_to_run c1 v (assign_tests_to_run c2 w σ)
  = assign_tests_to_run c2 w (assign_tests_to_run c1 v σ).
Proof.
  intros Hne. apply map_eq. intros c. unfold assign_tests_to_run.
  destruct (decide (c1 = c)) as [->|?], (decide (c2 = c)) as [->|?];
    try done;
    repeat first [rewrite lookup_alter_eq | rewrite lookup_alter_ne by done];
    done.
Qed.

Lemma find_own σ cls v :
  state_of σ cls = Some v → find_tests_to_run σ cls = Some (cls, v).
Proof.
  unfold state_of, find_tests_to_run, mro. intros Hv.
  destruct (σ !! cls) as [c|] eqn:Hc; [|done].
  cbn. rewrite Hc. cbn in *. by rewrite Hv.
Qed.

(** ** One call *)

Lemma before_hook_assign cls v σ c' :
  before_hook (assign_tests_to_run cls v σ) c' = before_hook σ c'.
Proof. unfold before_hook. by rewrite mro_assign, lookup_before_assign. Qed.

Lemma after_hook_assign cls v σ c' :
  after_hook (assign_tests_to_run cls v σ) c' = after_hook σ c'.
Proof. unfold after_hook. by rewrite mro_assign, lookup_after_assign. Qed.

Lemma call_setUpTestCase_eq self σ :
  call_setUpTestCase self σ
  = hook_call (EBefore (type_of self)) (before_hook σ (type_of self)) σ.
Proof.
  unfold before_hook, call_setUpTestCase.
  destruct (lookup_mro _ _ _) as [[o h]|]; [|done]. by destruct h.
Qed.

Lemma call_tearDownTestCase_eq self σ :
  call_tearDownTestCase self σ
  = hook_call (EAfter (type_of self)) (after_hook σ (type_of self)) σ.
Proof.
  unfold after_hook, call_tearDownTestCase.
  destruct (lookup_mro _ _ _) as [[o h]|]; [|done]. by destruct h.
Qed.

Lemma read_tests_to_run_eq leaf σ v :
  state_of σ leaf = Some v → read_tests_to_run leaf σ = (σ, [], Ok v).
Proof. intros Hv. unfold read_tests_to_run. by rewrite (find_own _ _ v). Qed.

(** The wrapped [setUp] on the sentinel: the set is installed, then the
    hook is called, then the wrapped function. *)
Lemma call_setUp_sentinel md tn g self σ :
  state_of σ (type_of self) = Some PyNone →
  call (setUp_closure md tn g) self σ =
    let σ1 := assign_tests_to_run (type_of self) (PySet tn) σ in
    let y := hook_call (EBefore (type_of self))
               (before_hook σ (type_of self)) σ1 in
    match res y with
    | Ok _ => let x := call g self σ1 in (st x, tr y ++ tr x, res x)
    | Exc e => (σ1, tr y, Exc e)
    end.
Proof.
  intros Hv. cbn [call]. unfold BeforeAfterTestCaseMeta.setUp, bind.
  rewrite (read_tests_to_run_eq _ _ _ Hv). unfold write_tests_to_run.
  rewrite call_setUpTestCase_eq, before_hook_assign.
  destruct (before_hook σ _) as [[|e]|]; cbn; try done.
  by destruct (call g self _) as [[σ' t] r].
Qed.

Lemma call_setUp_started md tn g self σ s :
  state_of σ (type_of self) = Some (PySet s) →
  call (setUp_closure md tn g) self σ = call g self σ.
Proof.
  intros Hv. cbn [call]. unfold BeforeAfterTestCaseMeta.setUp, bind.
  rewrite (read_tests_to_run_eq _ _ _ Hv). cbn.
  by destruct (call g self _) as [[σ' t] r].
Qed.

Lemma call_test_started md g n self σ s :
  state_of σ (type_of self) = Some (PySet s) →
  call (test_closure md g n) self σ =
    call g self (assign_tests_to_run (type_of self) (PySet (s ∖ {[n]})) σ).
Proof.
  intros Hv. cbn [call]. unfold BeforeAfterTestCaseMeta.test, bind, discard.
  rewrite (find_own _ _ _ Hv).
  by destruct (call g self _) as [[σ' t] r].
Qed.

Lemma call_test_sentinel md g n self σ :
  state_of σ (type_of self) = Some PyNone →
  call (test_closure md g n) self σ = (σ, [], Exc AttributeError).
Proof.
  intros Hv. cbn [call]. unfold BeforeAfterTestCaseMeta.test, bind, discard.
  by rewrite (find_own _ _ _ Hv).
Qed.

Lemma call_tearDown_eq md g self σ σ1 t1 r1 v :
  call g self σ = (σ1, t1, r1) →
  state_of σ1 (type_of self) = Some v →
  call (tearDown_closure md g) self σ =
    match r1 with
    | Exc e => (σ1, t1, Exc e)
    | Ok _ =>
        let x := after_tearDown (type_of self)
                   (after_hook σ1 (type_of self)) v σ1 in
        (st x, t1 ++ tr x, res x)
    end.
Proof.
  intros Hg Hv. cbn [call]. unfold BeforeAfterTestCaseMeta.tearDown, bind.
  rewrite Hg. destruct r1 as [[]|e]; [|done].
  rewrite (read_tests_to_run_eq _ _ _ Hv). cbn.
  destruct v as [|s]; cbn; [done|].
  case_decide; cbn; [|done].
  unfold write_tests_to_run.
  rewrite call_tearDownTestCase_eq, after_hook_assign.
  by destruct (after_hook σ1 _) as [[|e]|].
Qed.

(** ** Frame properties of a call *)

(** A call on an instance of [leaf] changes nothing but the
    [__tests_to_run] of [leaf]. *)
Lemma call_exec_frame self :
  (∀ f σ v, state_of σ (type_of self) = Some v →
     ∃ v', st (call f self σ) = assign_tests_to_run (type_of self) v' σ) ∧
  (∀ b σ v, state_of σ (type_of self) = Some v →
     ∃ v', st (exec b self σ) = assign_tests_to_run (type_of self) v' σ).
Proof.
  apply func_body_mutind.
  - intros md b IH σ v Hv. cbn [call]. eauto.
  - intros md tn g IH σ v Hv. destruct v as [|s].
    + rewrite call_setUp_sentinel by done. cbn zeta.
      destruct (before_hook σ _) as [[|e]|]; cbn; eauto.
      destruct (IH (assign_tests_to_run (type_of self) (PySet tn) σ) (PySet tn))
        as [v' Hv'].
      { apply state_of_assign_eq. by eapply state_of_is_Some. }
      exists v'. rewrite Hv'. apply assign_assign.
    + rewrite (call_setUp_started _ _ _ _ _ s) by done. eauto.
  - intros md g IH σ v Hv.
    destruct (call g self σ) as [[σ1 t1] r1] eqn:Hg.
    destruct (IH σ v Hv) as [v1 Hv1]. rewrite Hg in Hv1. cbn in Hv1.
    assert (Hs1 : state_of σ1 (type_of self) = Some v1).
    { rewrite Hv1. apply state_of_assign_eq. by eapply state_of_is_Some. }
    rewrite (call_tearDown_eq _ _ _ _ _ _ _ _ Hg Hs1).
    destruct r1 as [[]|e]; [|by exists v1].
    unfold after_tearDown. destruct v1 as [|s1]; [by exists PyNone|].
    case_decide; [|by exists (PySet s1)].
    exists PyNone. rewrite Hv1.
    destruct (after_hook _ _) as [h|]; cbn; apply assign_assign.
  - intros md g IH n σ v Hv. destruct v as [|s].
    + rewrite call_test_sentinel by done. exists PyNone.
      cbn. by rewrite assign_same.
    + rewrite (call_test_started _ _ _ _ _ s) by done.
      destruct (IH (assign_tests_to_run (type_of self) (PySet (s ∖ {[n]})) σ)
                   (PySet (s ∖ {[n]}))) as [v' Hv'].
      { apply state_of_assign_eq. by eapply state_of_is_Some. }
      exists v'. rewrite Hv'. apply assign_assign.
  - intros σ v Hv. exists v. cbn. by rewrite assign_same.
  - intros l k IH σ v Hv. cbn [exec]. unfold bind, emit.
    destruct (IH σ v Hv) as [v' Hv']. exists v'.
    by destruct (exec k self σ) as [[σ' t] r].
  - intros e σ v Hv. exists v. cbn. by rewrite assign_same.
  - intros f IHf k IHk σ v Hv. cbn [exec]. unfold bind.
    destruct (IHf σ v Hv) as [v1 Hv1].
    destruct (call f self σ) as [[σ1 t1] r1]. cbn in Hv1.
    destruct r1 as [[]|e]; [|by exists v1].
    destruct (IHk σ1 v1) as [v2 Hv2].
    { rewrite Hv1. apply state_of_assign_eq. by eapply state_of_is_Some. }
    exists v2. destruct (exec k self σ1) as [[σ2 t2] r2]. cbn in *.
    rewrite Hv2, Hv1. apply assign_assign.
Qed.

Lemma call_state_of f self σ v :
  state_of σ (type_of self) = Some v →
  ∃ v', st (call f self σ) = assign_tests_to_run (type_of self) v' σ
        ∧ state_of (st (call f self σ)) (type_of self) = Some v'.
Proof.
  intros Hv. destruct (proj1 (call_exec_frame self) f σ v Hv) as [v' Hv'].
  exists v'. split; [done|]. rewrite Hv'.
  apply state_of_assign_eq. by eapply state_of_is_Some.
Qed.

Lemma hook_call_tagged ev h σ c :
  event_class ev = c → Forall (λ e, event_class e = c) (tr (hook_call ev h σ)).
Proof. intros. destruct h; cbn; repeat constructor; done. Qed.

(** Every event of a call carries the class of the instance. *)
Lemma call_exec_tagged self :
  (∀ f σ v, state_of σ (type_of self) = Some v →
     Forall (λ e, event_class e = type_of self) (tr (call f self σ))) ∧
  (∀ b σ v, state_of σ (type_of self) = Some v →
     Forall (λ e, event_class e = type_of self) (tr (exec b self σ))).
Proof.
  apply func_body_mutind.
  - intros md b IH σ v Hv. cbn [call]. eauto.
  - intros md tn g IH σ v Hv. destruct v as [|s].
    + rewrite call_setUp_sentinel by done. cbn zeta.
      pose proof (hook_call_tagged (EBefore (type_of self))
        (before_hook σ (type_of self))
        (assign_tests_to_run (type_of self) (PySet tn) σ) _ eq_refl) as Hh.
      destruct (res (hook_call _ _ _)); [|done].
      unfold tr at 1. cbn. apply Forall_app. split; [done|].
      eapply IH. apply state_of_assign_eq. by eapply state_of_is_Some.
    + rewrite (call_setUp_started _ _ _ _ _ s) by done. eauto.
  - intros md g IH σ v Hv.
    destruct (call g self σ) as [[σ1 t1] r1] eqn:Hg.
    destruct (call_state_of g self σ v Hv) as (v1 & _ & Hs1).
    rewrite Hg in Hs1. cbn in Hs1.
    pose proof (IH σ v Hv) as Ht1. rewrite Hg in Ht1.
    rewrite (call_tearDown_eq _ _ _ _ _ _ _ _ Hg Hs1).
    destruct r1 as [[]|e]; [|done].
    unfold tr at 1. cbn. apply Forall_app. split; [done|].
    unfold after_tearDown. destruct v1 as [|s1]; [constructor|].
    case_decide; [|constructor]. by apply hook_call_tagged.
  - intros md g IH n σ v Hv. destruct v as [|s].
    + rewrite call_test_sentinel by done. constructor.
    + rewrite (call_test_started _ _ _ _ _ s) by done.
      eapply IH. apply state_of_assign_eq. by eapply state_of_is_Some.
  - intros σ v Hv. constructor.
  - intros l k IH σ v Hv. cbn [exec]. unfold bind, emit.
    pose proof (IH σ v Hv) as Hk.
    destruct (exec k self σ) as [[σ' t] r]. cbn in *. by constructor.
  - intros e σ v Hv. constructor.
  - intros f IHf k IHk σ v Hv. cbn [exec]. unfold bind.
    pose proof (IHf σ v Hv) as Hf.
    destruct (call_state_of f self σ v Hv) as (v1 & _ & Hs1).
    destruct (call f self σ) as [[σ1 t1] r1]. cbn in Hs1, Hf.
    destruct r1 as [[]|e]; [|done].
    pose proof (IHk σ1 v1 Hs1) as Hk.
    destruct (exec k self σ1) as [[σ2 t2] r2]. cbn in *.
    apply Forall_app. by split.
Qed.

Lemma hook_call_assign ev h c w σ :
  hook_call ev h (assign_tests_to_run c w σ)
  = (assign_tests_to_run c w (st (hook_call ev h σ)),
     tr (hook_call ev h σ), res (hook_call ev h σ)).
Proof. by destruct h. Qed.

(** A call on an instance of one class commutes with an assignment to
    the [__tests_to_run] of another class. *)
Lemma call_exec_assign_other self c w :
  c ≠ type_of self →
  (∀ f σ v, state_of σ (type_of self) = Some v →
     call f self (assign_tests_to_run c w σ)
     = (assign_tests_to_run c w (st (call f self σ)),
        tr (call f self σ), res (call f self σ))) ∧
  (∀ b σ v, state_of σ (type_of self) = Some v →
     exec b self (assign_tests_to_run c w σ)
     = (assign_tests_to_run c w (st (exec b self σ)),
        tr (exec b self σ), res (exec b self σ))).
Proof.
  intros Hne.
  assert (Hst : ∀ σ v, state_of σ (type_of self) = Some v →
            state_of (assign_tests_to_run c w σ) (type_of self) = Some v).
  { intros σ v Hv. by rewrite state_of_assign_ne. }
  apply func_body_mutind.
  - intros md b IH σ v Hv. cbn [call]. eauto.
  - intros md tn g IH σ v Hv. destruct v as [|s].
    + rewrite !call_setUp_sentinel by eauto. cbn zeta.
      rewrite before_hook_assign.
      rewrite (assign_comm (type_of self) c) by done.
      rewrite hook_call_assign.
      unfold res at 1. cbn [snd].
      destruct (res (hook_call _ _ _)) as [[]|e].
      * erewrite IH; [done|].
        apply state_of_assign_eq. by eapply state_of_is_Some.
      * done.
    + rewrite !(call_setUp_started _ _ _ _ _ s) by eauto. eauto.
  - intros md g IH σ v Hv.
    destruct (call g self σ) as [[σ1 t1] r1] eqn:Hg.
    destruct (call_state_of g self σ v Hv) as (v1 & _ & Hs1).
    rewrite Hg in Hs1. cbn in Hs1.
    pose proof (IH σ v Hv) as Hg'. rewrite Hg in Hg'. cbn in Hg'.
    rewrite (call_tearDown_eq _ _ _ _ _ _ _ _ Hg Hs1).
    rewrite (call_tearDown_eq _ _ _ _ _ _ _ _ Hg' (Hst _ _ Hs1)).
    destruct r1 as [[]|e]; [|done].
    rewrite after_hook_assign.
    unfold after_tearDown. destruct v1 as [|s1]; [done|].
    case_decide; [|done].
    rewrite (assign_comm (type_of self) c) by done.
    by rewrite hook_call_assign.
  - intros md g IH n σ v Hv. destruct v as [|s].
    + rewrite !call_test_sentinel by eauto. done.
    + rewrite !(call_test_started _ _ _ _ _ s) by eauto.
      rewrite (assign_comm (type_of self) c) by done.
      eapply IH. apply state_of_assign_eq. by eapply state_of_is_Some.
  - done.
  - intros l k IH σ v Hv. cbn [exec]. unfold bind, emit.
    rewrite (IH σ v Hv).
    by destruct (exec k self σ) as [[σ' t] r].
  - done.
  - intros f IHf k IHk σ v Hv. cbn [exec]. unfold bind.
    rewrite (IHf σ v Hv).
    destruct (call_state_of f self σ v Hv) as (v1 & _ & Hs1).
    destruct (call f self σ) as [[σ1 t1] r1]. cbn in Hs1. cbn.
    destruct r1 as [[]|e]; [|done].
    rewrite (IHk σ1 v1 Hs1).
    by destruct (exec k self σ1) as [[σ2 t2] r2].
Qed.

(** ** The three kinds of wrapped method *)

(** In a quiet state a function runs its declared bodies and nothing
    else: no hook is called and [__tests_to_run] is left alone. *)
Lemma call_exec_quiet self r :
  (∀ f σ v, state_of σ (type_of self) = Some v → quiet r v → plays r f →
     st (call f self σ) = σ ∧ Forall is_user (tr (call f self σ)) ∧
     (returns f → res (call f self σ) = Ok tt)) ∧
  (∀ b σ v, state_of σ (type_of self) = Some v → quiet r v → body_plays r b →
     st (exec b self σ) = σ ∧ Forall is_user (tr (exec b self σ)) ∧
     (body_returns b → res (exec b self σ) = Ok tt)).
Proof.
  apply func_body_mutind.
  - intros md b IH σ v Hv Hq Hp. cbn [call]. eauto.
  - intros md tn g IH σ v Hv Hq Hp. cbn in Hp.
    apply andb_True in Hp as [Hr Hp]. apply bool_decide_unpack in Hr as ->.
    destruct v as [|s]; [done|].
    rewrite (call_setUp_started _ _ _ _ _ s) by done. eauto.
  - intros md g IH σ v Hv Hq Hp. cbn in Hp.
    apply andb_True in Hp as [Hr Hp]. apply bool_decide_unpack in Hr as ->.
    destruct (IH σ v Hv Hq Hp) as (Hst & Htr & Hres).
    destruct (call g self σ) as [[σ1 t1] r1] eqn:Hg. cbn in Hst. subst σ1.
    rewrite (call_tearDown_eq _ _ _ _ _ _ _ _ Hg Hv).
    destruct r1 as [[]|e].
    + assert (after_tearDown (type_of self) (after_hook σ (type_of self)) v σ
              = (σ, [], Ok tt)) as ->.
      { unfold after_tearDown. destruct v as [|s]; [done|].
        cbn in Hq. by case_decide. }
      cbn. rewrite app_nil_r. done.
    + split; [done|]. split; [done|]. intros Hret. by specialize (Hres Hret).
  - intros md g IH n σ v Hv Hq Hp. cbn in Hp.
    apply andb_True in Hp as [Hr Hp]. apply bool_decide_unpack in Hr as ->.
    destruct v as [|s]; [done|]. cbn in Hq.
    rewrite (call_test_started _ _ _ _ _ s) by done.
    rewrite difference_disjoint_L by (by apply disjoint_singleton_r).
    rewrite assign_same by done. eauto.
  - intros σ v Hv Hq Hp. cbn. by repeat split.
  - intros l k IH σ v Hv Hq Hp. cbn [exec]. unfold bind, emit.
    destruct (IH σ v Hv Hq Hp) as (Hst & Htr & Hres).
    destruct (exec k self σ) as [[σ' t] r']. cbn in *.
    split; [done|]. split; [by constructor|done].
  - intros e σ v Hv Hq Hp. cbn. by repeat split.
  - intros f IHf k IHk σ v Hv Hq Hp. cbn in Hp.
    apply andb_True in Hp as [Hpf Hpk].
    cbn [exec]. unfold bind.
    destruct (IHf σ v Hv Hq Hpf) as (Hst & Htr & Hres).
    destruct (call f self σ) as [[σ1 t1] r1]. cbn in Hst, Htr, Hres.
    subst σ1. destruct r1 as [[]|e].
    + destruct (IHk σ v Hv Hq Hpk) as (Hst2 & Htr2 & Hres2).
      destruct (exec k self σ) as [[σ2 t2] r2]. cbn in *.
      split; [done|]. split; [by apply Forall_app|].
      intros Hret. apply andb_True in Hret as [_ Hret]. eauto.
    + cbn. split; [done|]. split; [done|].
      intros Hret. apply andb_True in Hret as [Hret _]. eauto.
Qed.

(** [tearDown] functions on the empty set: either no wrapper is reached,
    or the first wrapper whose check runs resets the set and calls the
    hook, and every later check finds the sentinel. *)
Lemma call_exec_drained self :
  (∀ f σ s, state_of σ (type_of self) = Some (PySet s) → size s = 0 →
     after_hook σ (type_of self) = Some Pass →
     plays RTearDown f → returns f →
     res (call f self σ) = Ok tt ∧
     ((st (call f self σ) = σ ∧ Forall is_user (tr (call f self σ))) ∨
      (st (call f self σ) = assign_tests_to_run (type_of self) PyNone σ ∧
       fires_after (type_of self) (tr (call f self σ))))) ∧
  (∀ b σ s, state_of σ (type_of self) = Some (PySet s) → size s = 0 →
     after_hook σ (type_of self) = Some Pass →
     body_plays RTearDown b → body_returns b →
     res (exec b self σ) = Ok tt ∧
     ((st (exec b self σ) = σ ∧ Forall is_user (tr (exec b self σ))) ∨
      (st (exec b self σ) = assign_tests_to_run (type_of self) PyNone σ ∧
       fires_after (type_of self) (tr (exec b self σ))))).
Proof.
  apply func_body_mutind.
  - intros md b IH σ s Hv Hs Hh Hp Hr. cbn [call]. eauto.
  - intros md tn g _ σ s _ _ _ Hp _. cbn in Hp.
    apply andb_True in Hp as [Hr _]. by apply bool_decide_unpack in Hr.
  - intros md g IH σ s Hv Hs Hh Hp Hr. cbn in Hp, Hr.
    apply andb_True in Hp as [_ Hp].
    destruct (IH σ s Hv Hs Hh Hp Hr) as (Hres & Hcase).
    destruct (call g self σ) as [[σ1 t1] r1] eqn:Hg. cbn in Hres, Hcase.
    subst r1. destruct Hcase as [[-> Hu]|[-> Hf]].
    + rewrite (call_tearDown_eq _ _ _ _ _ _ _ _ Hg Hv). rewrite Hh.
      unfold after_tearDown. rewrite decide_True by done. cbn.
      split; [done|]. right. split; [done|].
      exists t1, []. by repeat split.
    + assert (Hv1 : state_of (assign_tests_to_run (type_of self) PyNone σ)
                      (type_of self) = Some PyNone).
      { apply state_of_assign_eq. by eapply state_of_is_Some. }
      rewrite (call_tearDown_eq _ _ _ _ _ _ _ _ Hg Hv1). cbn.
      rewrite app_nil_r. split; [done|]. by right.
  - intros md g _ n σ s _ _ _ Hp _. cbn in Hp.
    apply andb_True in Hp as [Hr _]. by apply bool_decide_unpack in Hr.
  - intros σ s Hv Hs Hh Hp Hr. cbn. split; [done|]. left. by split.
  - intros l k IH σ s Hv Hs Hh Hp Hr. cbn [exec]. unfold bind, emit.
    destruct (IH σ s Hv Hs Hh Hp Hr) as (Hres & Hcase).
    destruct (exec k self σ) as [[σ' t] r']. cbn in *.
    split; [done|]. destruct Hcase as [[-> Hu]|[-> (t1 & t2 & -> & H1 & H2)]].
    + left. split; [done|]. by constructor.
    + right. split; [done|].
      exists (EUser (type_of self) l :: t1), t2. repeat split; try done.
      by constructor.
  - intros e σ s _ _ _ _ Hr. done.
  - intros f IHf k IHk σ s Hv Hs Hh Hp Hr. cbn in Hp, Hr.
    apply andb_True in Hp as [Hpf Hpk]. apply andb_True in Hr as [Hrf Hrk].
    cbn [exec]. unfold bind.
    destruct (IHf σ s Hv Hs Hh Hpf Hrf) as (Hres & Hcase).
    destruct (call f self σ) as [[σ1 t1] r1]. cbn in Hres, Hcase. subst r1.
    destruct Hcase as [[-> Hu]|[-> (ta & tb & -> & Ha & Hb)]].
    + destruct (IHk σ s Hv Hs Hh Hpk Hrk) as (Hres2 & Hcase2).
      destruct (exec k self σ) as [[σ2 t2] r2]. cbn in *.
      split; [done|].
      destruct Hcase2 as [[-> Hu2]|[-> (tc & td & -> & Hc & Hd)]].
      * left. split; [done|]. by apply Forall_app.
      * right. split; [done|]. exists (t1 ++ tc), td.
        rewrite <- app_assoc. repeat split; try done. by apply Forall_app.
    + assert (Hv1 : state_of (assign_tests_to_run (type_of self) PyNone σ)
                      (type_of self) = Some PyNone).
      { apply state_of_assign_eq. by eapply state_of_is_Some. }
      destruct (proj2 (call_exec_quiet self RTearDown) k _ _ Hv1 I Hpk)
        as (Hst2 & Htr2 & Hres2).
      destruct (exec k self _) as [[σ2 t2] r2]. cbn in *. subst σ2.
      split; [eauto|]. right. split; [done|].
      exists ta, (tb ++ t2). rewrite <- app_assoc. cbn.
      repeat split; try done. by apply Forall_app.
Qed.

(** The wrapped [tearDown] on the empty set always fires the hook. *)
Lemma call_tearDown_drained md g self σ s :
  state_of σ (type_of self) = Some (PySet s) → size s = 0 →
  after_hook σ (type_of self) = Some Pass →
  plays RTearDown g → returns g →
  res (call (tearDown_closure md g) self σ) = Ok tt ∧
  st (call (tearDown_closure md g) self σ)
    = assign_tests_to_run (type_of self) PyNone σ ∧
  fires_after (type_of self) (tr (call (tearDown_closure md g) self σ)).
Proof.
  intros Hv Hs Hh Hp Hr.
  destruct (proj1 (call_exec_drained self) g σ s Hv Hs Hh Hp Hr)
    as (Hres & Hcase).
  destruct (call g self σ) as [[σ1 t1] r1] eqn:Hg. cbn in Hres, Hcase.
  subst r1. destruct Hcase as [[-> Hu]|[-> Hf]].
  - rewrite (call_tearDown_eq _ _ _ _ _ _ _ _ Hg Hv). rewrite Hh.
    unfold after_tearDown. rewrite decide_True by done. cbn.
    repeat split. exists t1, []. by repeat split.
  - assert (Hv1 : state_of (assign_tests_to_run (type_of self) PyNone σ)
                    (type_of self) = Some PyNone).
    { apply state_of_assign_eq. by eapply state_of_is_Some. }
    rewrite (call_tearDown_eq _ _ _ _ _ _ _ _ Hg Hv1). cbn.
    rewrite app_nil_r. by repeat split.
Qed.

(** ** Instrumented classes *)

Lemma dir_alter_dict (f : class → class) c (σ : store) cls :
  (∀ k, c_ancestors (f k) = c_ancestors k) →
  (∀ k, dom (c_dict (f k)) = dom (c_dict k)) →
  dir (alter f c σ) cls = dir σ cls.
Proof.
  intros Ha Hd. unfold dir. rewrite mro_alter_ancestors by done.
  f_equal. apply list_fmap_ext. intros _ c' _.
  rewrite lookup_alter. case_decide; [subst|done].
  destruct (σ !! c'); cbn; [apply Hd|done].
Qed.

Lemma getTestCaseNames_assign c v σ cls :
  getTestCaseNames (assign_tests_to_run c v σ) cls = getTestCaseNames σ cls.
Proof. unfold getTestCaseNames, assign_tests_to_run. by rewrite dir_alter_dict. Qed.

Lemma instrumented_assign σ leaf c v :
  instrumented σ leaf → instrumented (assign_tests_to_run c v σ) leaf.
Proof.
  intros [Hs Hu Hd Ht Hb Ha]. split.
  - destruct (decide (c = leaf)) as [->|Hne].
    + rewrite state_of_assign_eq; [done|].
      destruct Hs as [w Hw]. by eapply state_of_is_Some.
    + by rewrite state_of_assign_ne.
  - by rewrite getattr_method_assign, getTestCaseNames_assign.
  - by rewrite getattr_method_assign.
  - intros n. rewrite getTestCaseNames_assign, getattr_method_assign. eauto.
  - by rewrite before_hook_assign.
  - by rewrite after_hook_assign.
Qed.

Lemma completes_assign σ leaf c v :
  completes σ leaf → completes (assign_tests_to_run c v σ) leaf.
Proof.
  unfold completes.
  by rewrite !getattr_method_assign, before_hook_assign, after_hook_assign.
Qed.

(** ** One test, then a whole suite *)

Lemma not_elem_of_discard (n : string) (s : gset string) : n ∉ s ∖ {[n]}.
Proof. rewrite elem_of_difference, elem_of_singleton. tauto. Qed.

Lemma fires_after_prepend leaf u t :
  Forall is_user u → fires_after leaf t → fires_after leaf (u ++ t).
Proof.
  intros Hu (t1 & t2 & -> & H1 & H2). exists (u ++ t1), t2.
  rewrite <- app_assoc. repeat split; try done. by apply Forall_app.
Qed.

(** A test of a class whose run has started: the name is removed; the
    after-class hook fires iff nothing is left. *)
Lemma run_started σ self s :
  instrumented σ (type_of self) → completes σ (type_of self) →
  state_of σ (type_of self) = Some (PySet s) →
  testMethodName self ∈ getTestCaseNames σ (type_of self) →
  if decide (size (s ∖ {[testMethodName self]}) = 0)
  then st (run self σ) = assign_tests_to_run (type_of self) PyNone σ
       ∧ fires_after (type_of self) (tr (run self σ))
  else st (run self σ) = assign_tests_to_run (type_of self)
                           (PySet (s ∖ {[testMethodName self]})) σ
       ∧ Forall is_user (tr (run self σ)).
Proof.
  intros [_ (mdu & gu & Hgu & Hpu) (mdd & gd & Hgd & Hpd) Ht _ _]
         (Hru & Hrd & Hhb & Hha) Hv Hn.
  destruct (Ht _ Hn) as (mdt & gt & Hgt & Hpt).
  rewrite Hgu in Hru. rewrite Hgd in Hrd. cbn in Hru, Hrd.
  set (n := testMethodName self) in *.
  set (σa := assign_tests_to_run (type_of self) (PySet (s ∖ {[n]})) σ).
  assert (Hva : state_of σa (type_of self) = Some (PySet (s ∖ {[n]}))).
  { apply state_of_assign_eq. by eapply state_of_is_Some. }
  assert (Hgda : getattr_method σa (type_of self) "tearDown"
                 = Some (tearDown_closure mdd gd)).
  { unfold σa. by rewrite getattr_method_assign. }
  unfold run, run_test, call_method. rewrite Hgu.
  rewrite (call_setUp_started _ _ _ _ _ s) by done.
  destruct (proj1 (call_exec_quiet self RSetUp) gu σ _ Hv I Hpu)
    as (Hst1 & Htr1 & Hres1).
  destruct (call gu self σ) as [[σ1 t1] r1]. cbn in Hst1, Htr1, Hres1.
  subst σ1. rewrite (Hres1 Hru). fold n. rewrite Hgt.
  rewrite (call_test_started _ _ _ _ _ s) by done. fold σa.
  destruct (proj1 (call_exec_quiet self (RTest n)) gt σa _ Hva) as
    (Hst2 & Htr2 & _); [apply not_elem_of_discard|done|].
  destruct (call gt self σa) as [[σ2 t2] r2]. cbn in Hst2, Htr2. subst σ2.
  rewrite Hgda. case_decide as Hsz.
  - destruct (call_tearDown_drained mdd gd self σa _ Hva Hsz) as
      (_ & Hst3 & Htr3); [by unfold σa; rewrite after_hook_assign|done..|].
    destruct (call (tearDown_closure mdd gd) self σa) as [[σ3 t3] r3].
    cbn in Hst3, Htr3. subst σ3. cbn. split.
    + unfold σa. apply assign_assign.
    + apply fires_after_prepend; [done|]. by apply fires_after_prepend.
  - destruct (proj1 (call_exec_quiet self RTearDown)
                (tearDown_closure mdd gd) σa _ Hva Hsz) as
      (Hst3 & Htr3 & _);
      [by apply andb_True; split; [apply bool_decide_pack|]|].
    destruct (call (tearDown_closure mdd gd) self σa) as [[σ3 t3] r3].
    cbn in Hst3, Htr3. subst σ3. cbn. split; [done|].
    apply Forall_app. split; [done|]. by apply Forall_app.
Qed.

(** The first test of a run: the set is installed and the before-class
    hook fires first; the rest is a test of a started run. *)
Lemma run_sentinel σ self :
  instrumented σ (type_of self) → completes σ (type_of self) →
  state_of σ (type_of self) = Some PyNone →
  run self σ =
    let x := run self (assign_tests_to_run (type_of self)
               (PySet (getTestCaseNames σ (type_of self))) σ) in
    (st x, EBefore (type_of self) :: tr x, res x).
Proof.
  intros [_ (mdu & gu & Hgu & Hpu) _ _ _ _] (Hru & _ & Hhb & _) Hv.
  cbn zeta. set (σ1 := assign_tests_to_run _ _ σ).
  assert (Hv1 : state_of σ1 (type_of self)
                = Some (PySet (getTestCaseNames σ (type_of self)))).
  { apply state_of_assign_eq. by eapply state_of_is_Some. }
  assert (Hgu1 : getattr_method σ1 (type_of self) "setUp"
                 = Some (setUp_closure mdu
                           (getTestCaseNames σ (type_of self)) gu)).
  { unfold σ1. by rewrite getattr_method_assign. }
  assert (Hrhs : run self σ1 =
            let x := call gu self σ1 in
            match res x with
            | Exc e => (st x, tr x, [e])
            | Ok _ => let y := run_test self (st x) in
                      (st y, tr x ++ tr y, res y)
            end).
  { unfold run, call_method.
    rewrite Hgu1, (call_setUp_started _ _ _ _ _ _ Hv1).
    by destruct (call gu self σ1) as [[σ2 t2] [[]|e]]. }
  rewrite Hrhs. unfold run, call_method. rewrite Hgu.
  rewrite call_setUp_sentinel by done. cbn zeta. rewrite Hhb. fold σ1.
  destruct (call gu self σ1) as [[σ2 t2] [[]|e]]; cbn; [|done].
  by destruct (run_test self σ2) as [[σ3 t3] r3].
Qed.

Lemma suite_of_cons cls n names σ :
  run_all (suite_of cls (n :: names)) σ =
    let x := run (Instance cls n) σ in
    let y := run_all (suite_of cls names) (st x) in
    (st y, tr x ++ tr y, res x ++ res y).
Proof.
  cbn. destruct (run (Instance cls n) σ) as [[σ1 t1] e1]. cbn.
  by destruct (run_all _ σ1) as [[σ2 t2] e2].
Qed.

(** The rest of a started run: when the names still in the set are run,
    each once, the after-class hook fires once, in the last of them. *)
Lemma run_all_started leaf order : ∀ σ s,
  instrumented σ leaf → completes σ leaf →
  state_of σ leaf = Some (PySet s) →
  NoDup order → (∀ n, n ∈ order ↔ n ∈ s) → order ≠ [] →
  (∀ n, n ∈ order → n ∈ getTestCaseNames σ leaf) →
  st (run_all (suite_of leaf order) σ) = assign_tests_to_run leaf PyNone σ ∧
  fires_after leaf (tr (run_all (suite_of leaf order) σ)).
Proof.
  induction order as [|n rest IH]; [done|].
  intros σ s Hi Hc Hv Hnd Hin _ Hnames.
  apply NoDup_cons in Hnd as [Hn Hnd].
  rewrite suite_of_cons. cbn zeta.
  pose proof (run_started σ (Instance leaf n) s Hi Hc Hv) as Hrun.
  cbn [type_of testMethodName] in Hrun.
  specialize (Hrun (Hnames n ltac:(left))).
  assert (Hrest : ∀ m, m ∈ rest ↔ m ∈ s ∖ {[n]}).
  { intros m. rewrite elem_of_difference, elem_of_singleton, <- Hin.
    rewrite elem_of_cons. split.
    - intros Hm. split; [by right|]. by intros ->.
    - intros [[->|Hm] Hne]; done. }
  destruct (run (Instance leaf n) σ) as [[σ1 t1] e1]. cbn in Hrun.
  case_decide as Hsz.
  - destruct Hrun as [-> Hf]. apply size_empty_inv in Hsz.
    destruct rest as [|m rest].
    + cbn. rewrite app_nil_r. done.
    + exfalso. apply (not_elem_of_empty (C := gset string) m).
      rewrite <- Hsz. apply Hrest. by left.
  - destruct Hrun as [-> Hu]. cbn [st tr fst snd].
    destruct (IH (assign_tests_to_run leaf (PySet (s ∖ {[n]})) σ)
                 (s ∖ {[n]})) as [Hst Htr].
    + by apply instrumented_assign.
    + by apply completes_assign.
    + apply state_of_assign_eq. by eapply state_of_is_Some.
    + done.
    + done.
    + intros ->. apply Hsz. apply size_empty_iff. intros m.
      rewrite <- Hrest. split; [by intros ?%elem_of_nil|].
      by intros ?%not_elem_of_empty.
    + intros m Hm. rewrite getTestCaseNames_assign. apply Hnames. by right.
    + split.
      * rewrite Hst. apply assign_assign.
      * destruct Htr as (ta & tb & -> & Ha & Hb).
        exists (t1 ++ ta), tb. rewrite <- app_assoc.
        repeat split; try done. by apply Forall_app.
Qed.

(** A whole run of a class, from the sentinel: every test once, in any
    order.  The before-class hook is the first event, the after-class
    hook fires once, and the class is back at the sentinel. *)
Lemma run_all_fresh σ leaf order :
  instrumented σ leaf → completes σ leaf →
  state_of σ leaf = Some PyNone →
  order ≡ₚ elements (getTestCaseNames σ leaf) → order ≠ [] →
  st (run_all (suite_of leaf order) σ) = σ ∧
  ∃ t, tr (run_all (suite_of leaf order) σ) = EBefore leaf :: t ∧
       fires_after leaf t.
Proof.
  intros Hi Hc Hv Hperm Hne.
  set (names := getTestCaseNames σ leaf) in *.
  set (σ1 := assign_tests_to_run leaf (PySet names) σ).
  assert (Hnd : NoDup order).
  { rewrite Hperm. apply NoDup_elements. }
  assert (Hin : ∀ n, n ∈ order ↔ n ∈ names).
  { intros n. rewrite Hperm. apply elem_of_elements. }
  destruct (run_all_started leaf order σ1 names) as [Hst Htr].
  { by apply instrumented_assign. }
  { by apply completes_assign. }
  { apply state_of_assign_eq. by eapply state_of_is_Some. }
  { done. }
  { done. }
  { done. }
  { intros n Hn. unfold σ1. rewrite getTestCaseNames_assign. by apply Hin. }
  destruct order as [|n rest]; [done|].
  rewrite suite_of_cons in Hst, Htr |- *. cbn zeta in *.
  rewrite (run_sentinel σ (Instance leaf n)) by done.
  cbn [type_of]. fold names. fold σ1.
  destruct (run (Instance leaf n) σ1) as [[σ2 t2] e2].
  cbn [st tr res fst snd] in *.
  destruct (run_all (suite_of leaf rest) σ2) as [[σ3 t3] e3].
  cbn [st tr res fst snd] in *. split.
  - rewrite Hst. unfold σ1. rewrite assign_assign. by apply assign_same.
  - by exists (t2 ++ t3).
Qed.

(** ** Attribute lookup *)

Lemma lookup_mro_cons {A} (get : class → option A) (σ : store) c l :
  lookup_mro get σ (c :: l) =
    match σ !! c ≫= get with
    | Some a => Some (c, a)
    | None => lookup_mro get σ l
    end.
Proof. done. Qed.

Lemma lookup_mro_Some {A} (get : class → option A) (σ : store) l o a :
  lookup_mro get σ l = Some (o, a) → o ∈ l ∧ σ !! o ≫= get = Some a.
Proof.
  induction l as [|c l IH]; [done|]. cbn.
  destruct (σ !! c ≫= get) as [a'|] eqn:Hc.
  - intros [= <- <-]. split; [by left|done].
  - intros H. destruct (IH H). split; [by right|done].
Qed.

Lemma lookup_mro_is_Some {A} (get : class → option A) (σ : store) l c :
  c ∈ l → is_Some (σ !! c ≫= get) → is_Some (lookup_mro get σ l).
Proof.
  induction l as [|c' l IH]; [by intros ?%elem_of_nil|].
  intros Hc Hs. cbn. destruct (σ !! c' ≫= get) as [a|] eqn:Hc'; [eauto|].
  apply elem_of_cons in Hc as [->|Hc]; [|by apply IH].
  rewrite Hc' in Hs. by destruct Hs.
Qed.

Lemma getattr_method_own σ cls c nm f :
  σ !! cls = Some c → c_dict c !! nm = Some f →
  getattr_method σ cls nm = Some f.
Proof.
  intros Hc Hf. unfold getattr_method, mro. rewrite Hc. cbn.
  by rewrite Hc; cbn; rewrite Hf.
Qed.

Lemma getattr_method_owner σ cls nm f :
  getattr_method σ cls nm = Some f →
  ∃ o k, o ∈ mro σ cls ∧ σ !! o = Some k ∧ c_dict k !! nm = Some f.
Proof.
  unfold getattr_method. intros Hf.
  destruct (lookup_mro _ _ _) as [[o f']|] eqn:Hl; [|done].
  cbn in Hf. injection Hf as ->.
  apply lookup_mro_Some in Hl as [Ho Hk].
  destruct (σ !! o) as [k|] eqn:Hok; [|done]. eauto.
Qed.

Lemma elem_of_dir σ cls nm :
  nm ∈ dir σ cls ↔ is_Some (getattr_method σ cls nm).
Proof.
  unfold dir, getattr_method. generalize (mro σ cls) as l.
  induction l as [|c l IH]; cbn.
  - rewrite elem_of_empty. split; [done|]. by intros [? ?].
  - rewrite elem_of_union, IH. clear IH.
    destruct (σ !! c) as [k|]; cbn.
    + rewrite elem_of_dom. destruct (c_dict k !! nm) as [f|]; cbn.
      * split; [eauto|]. intros _. left. eauto.
      * split; [|by right]. intros [[? ?]|?]; done.
    + rewrite elem_of_empty. tauto.
Qed.

(** ** Defining a class *)

Section NewClass.
Context (σ : store) (name base : string) (b : class) (hb ha : option hook).
Hypothesis Hfresh : σ !! name = None.
Hypothesis Hbase : σ !! base = Some b.
Hypothesis Hclosed :
  ∀ cls c a, σ !! cls = Some c → a ∈ c_ancestors c → is_Some (σ !! a).

Abbreviation put := (put σ name base b hb ha).

Lemma fresh_not_in_mro cls c :
  σ !! cls = Some c → name ∉ cls :: c_ancestors c.
Proof.
  intros Hc [->|Ha]%elem_of_cons.
  - by rewrite Hfresh in Hc.
  - destruct (Hclosed _ _ _ Hc Ha) as [k Hk]. by rewrite Hfresh in Hk.
Qed.

Lemma lookup_mro_put {A} (get : class → option A) D tv l :
  name ∉ l → lookup_mro get (put D tv) l = lookup_mro get σ l.
Proof.
  intros Hl. apply lookup_mro_ext. intros c Hc. unfold put.
  rewrite lookup_insert_ne; [done|]. by intros ->.
Qed.

Lemma mro_put_old D tv cls :
  cls ≠ name → mro (put D tv) cls = mro σ cls.
Proof. intros Hne. unfold mro, put. by rewrite lookup_insert_ne. Qed.

Lemma mro_put_new D tv :
  mro (put D tv) name = name :: base :: c_ancestors b.
Proof. unfold mro, put. by rewrite lookup_insert_eq. Qed.

Lemma old_ne cls c : σ !! cls = Some c → cls ≠ name.
Proof. intros Hc ->. by rewrite Hfresh in Hc. Qed.

Lemma getattr_put_old D tv cls c nm :
  σ !! cls = Some c →
  getattr_method (put D tv) cls nm = getattr_method σ cls nm.
Proof.
  intros Hc. unfold getattr_method.
  rewrite mro_put_old by by eapply old_ne.
  rewrite lookup_mro_put; [done|].
  unfold mro. rewrite Hc. by eapply fresh_not_in_mro.
Qed.

Lemma dir_put_old D tv cls c :
  σ !! cls = Some c → dir (put D tv) cls = dir σ cls.
Proof.
  intros Hc. apply set_eq. intros nm. rewrite !elem_of_dir.
  by erewrite getattr_put_old.
Qed.

Lemma getattr_put_new D tv nm :
  getattr_method (put D tv) name nm =
    match D !! nm with
    | Some f => Some f
    | None => getattr_method σ base nm
    end.
Proof.
  unfold getattr_method. rewrite mro_put_new, lookup_mro_cons.
  unfold put at 1. rewrite lookup_insert_eq. cbn [mbind option_bind c_dict].
  destruct (D !! nm) as [f|]; [done|].
  rewrite lookup_mro_put by by eapply fresh_not_in_mro.
  unfold mro. by rewrite Hbase.
Qed.

Lemma dir_put_new D tv : dir (put D tv) name = dom D ∪ dir σ base.
Proof.
  apply set_eq. intros nm.
  rewrite elem_of_union, !elem_of_dir, getattr_put_new, elem_of_dom.
  destruct (D !! nm) as [f|]; [split; eauto|].
  split; [by right|]. intros [[? ?]|?]; done.
Qed.

Lemma setattr_put D tv nm f :
  setattr_method name nm f (put D tv) = put (<[nm := f]> D) tv.
Proof. unfold setattr_method, put. by rewrite alter_insert_eq. Qed.

Lemma assign_put D tv v :
  assign_tests_to_run name v (put D tv) = put D (Some v).
Proof. unfold assign_tests_to_run, put. by rewrite alter_insert_eq. Qed.

End NewClass.

Lemma role_of_test n : String.prefix "test" n = true → role_of n = Some (RTest n).
Proof.
  intros Hn. unfold role_of.
  repeat case_decide; subst; try done. by rewrite Hn.
Qed.

Lemma elem_of_getTestCaseNames σ cls n :
  n ∈ getTestCaseNames σ cls ↔ String.prefix "test" n = true ∧ n ∈ dir σ cls.
Proof. unfold getTestCaseNames. by rewrite elem_of_filter. Qed.

Lemma resolve_plays r super b :
  (∀ f, super = Some f → plays r f) → body_plays r (resolve super b).
Proof.
  intros Hs. induction b as [|l k IH|e|k IH]; cbn; try done.
  destruct super as [f|]; cbn; [|done].
  apply andb_True. split; [by apply Hs|done].
Qed.

Section Instrumenting.
Context (σ : store) (name base : string) (b : class) (hb ha : option hook).
Hypothesis Hfresh : σ !! name = None.
Hypothesis Hbase : σ !! base = Some b.
Hypothesis Hclosed :
  ∀ cls c a, σ !! cls = Some c → a ∈ c_ancestors c → is_Some (σ !! a).
Hypothesis Hroles : store_roles σ.

Abbreviation put := (put σ name base b hb ha).
Abbreviation visible_roles := (visible_roles σ name base b hb ha).

Lemma getattr_put_tv D tv tv' nm :
  getattr_method (put D tv) name nm = getattr_method (put D tv') name nm.
Proof. by rewrite !getattr_put_new. Qed.

Lemma declared_visible_roles (ms : gmap string (metadata * src_body)) :
  visible_roles (map_imap (declare σ base) ms).
Proof.
  intros nm f r. rewrite getattr_put_new by done.
  rewrite map_lookup_imap.
  destruct (ms !! nm) as [[md body]|]; cbn.
  - intros [= <-] Hr. cbn. apply resolve_plays. intros g Hg.
    by eapply Hroles.
  - intros Hf Hr. by eapply Hroles.
Qed.

Lemma SetMethod_put D tv nm repl σ' :
  BeforeAfterTestCaseMeta.SetMethod name nm repl (put D tv) = Some σ' →
  ∃ orig, getattr_method (put D tv) name nm = Some orig ∧
          σ' = put (<[nm := set_meta (func_meta orig) repl]> D) tv.
Proof.
  unfold BeforeAfterTestCaseMeta.SetMethod. intros H.
  destruct (getattr_method (put D tv) name nm) as [orig|]; [|done].
  cbn in H. injection H as <-. exists orig. split; [done|].
  by rewrite setattr_put.
Qed.

(** Replacing a visible attribute by a wrapper of its role keeps the
    roles, and the set of visible names. *)
Lemma insert_visible D tv nm g cl :
  getattr_method (put D tv) name nm = Some g →
  ∀ nm', getattr_method (put (<[nm := cl]> D) tv) name nm' =
         if decide (nm = nm') then Some cl
         else getattr_method (put D tv) name nm'.
Proof.
  intros Hg nm'. rewrite !getattr_put_new by done.
  rewrite lookup_insert. by case_decide.
Qed.

Lemma insert_visible_roles D nm g cl :
  getattr_method (put D None) name nm = Some g →
  (∀ r, role_of nm = Some r → plays r cl) →
  visible_roles D → visible_roles (<[nm := cl]> D).
Proof.
  intros Hg Hcl HD nm' f r.
  rewrite (insert_visible _ _ _ _ _ Hg). case_decide as Hnm.
  - subst nm'. intros [= <-]. apply Hcl.
  - apply HD.
Qed.

Lemma insert_visible_dir D tv nm g cl :
  getattr_method (put D tv) name nm = Some g →
  dir (put (<[nm := cl]> D) tv) name = dir (put D tv) name.
Proof.
  intros Hg. apply set_eq. intros nm'. rewrite !elem_of_dir.
  rewrite (insert_visible _ _ _ _ _ Hg). case_decide as Hnm; [|done].
  subst nm'. rewrite Hg. split; eauto.
Qed.

Lemma insert_visible_meta D tv nm g cl :
  getattr_method (put D tv) name nm = Some g →
  func_meta cl = func_meta g →
  ∀ nm', func_meta <$> getattr_method (put (<[nm := cl]> D) tv) name nm'
         = func_meta <$> getattr_method (put D tv) name nm'.
Proof.
  intros Hg Hm nm'. rewrite (insert_visible _ _ _ _ _ Hg).
  case_decide as Hnm; [|done]. subst nm'. rewrite Hg. cbn. by rewrite Hm.
Qed.

(** The loop over the test names: every name of the list ends up bound
    to a [test] wrapper in the namespace of the class, and every visible
    attribute keeps its metadata. *)
Lemma wrap_tests_put tv names : ∀ D σ',
  (∀ n, n ∈ names → String.prefix "test" n = true) →
  visible_roles D →
  BeforeAfterTestCaseMeta.wrap_tests name names (put D tv) = Some σ' →
  ∃ D', σ' = put D' tv ∧ visible_roles D' ∧
        dir (put D' tv) name = dir (put D tv) name ∧
        (∀ nm, func_meta <$> getattr_method (put D' tv) name nm
               = func_meta <$> getattr_method (put D tv) name nm) ∧
        (∀ nm, nm ∉ names → D' !! nm = D !! nm) ∧
        (∀ n, n ∈ names → ∃ md g, D' !! n = Some (test_closure md g n)).
Proof.
  induction names as [|n names IH]; intros D σ' Hnames HD Hw.
  - cbn in Hw. injection Hw as <-. exists D. repeat split; try done.
    by intros n ?%elem_of_nil.
  - cbn in Hw.
    destruct (getattr_method (put D tv) name n) as [g|] eqn:Hg; [|done].
    cbn in Hw.
    destruct (BeforeAfterTestCaseMeta.SetMethod _ _ _ _) as [σ1|] eqn:Hs; [|done].
    cbn in Hw.
    apply SetMethod_put in Hs as (orig & Ho & ->).
    rewrite Hg in Ho. injection Ho as <-. cbn in Hw.
    set (cl := test_closure (func_meta g) g n) in *.
    assert (Hg0 : getattr_method (put D None) name n = Some g).
    { by rewrite (getattr_put_tv _ _ tv). }
    destruct (IH (<[n := cl]> D) σ')
      as (D' & -> & HD' & Hdir & Hmeta & Hout & Hin).
    + intros m Hm. apply Hnames. by right.
    + eapply insert_visible_roles; [done| |done].
      intros r Hr. rewrite role_of_test in Hr by (apply Hnames; by left).
      injection Hr as <-. cbn. apply andb_True.
      split; [by apply bool_decide_pack|].
      eapply HD; [done|]. apply role_of_test. apply Hnames. by left.
    + done.
    + exists D'. split; [done|]. split; [done|]. split; [|split; [|split]].
      * rewrite Hdir. by eapply insert_visible_dir.
      * intros nm. rewrite Hmeta. by eapply insert_visible_meta.
      * intros nm Hnm. rewrite Hout.
        -- rewrite lookup_insert_ne; [done|]. intros ->. apply Hnm. by left.
        -- intros ?. apply Hnm. by right.
      * intros m Hm. destruct (decide (m ∈ names)) as [Hmn|Hmn]; [eauto|].
        apply elem_of_cons in Hm as [->|Hm]; [|done].
        rewrite (Hout n Hmn). unfold cl. rewrite lookup_insert_eq. eauto.
Qed.

End Instrumenting.

(** ** The invariant of the store *)

Lemma wf_initial : wf initial_store.
Proof.
  unfold initial_store. split.
  - exists TestCase. by rewrite lookup_singleton_eq.
  - intros cls c a [<- <-]%lookup_singleton_Some. by intros ?%elem_of_nil.
  - by intros cls c [<- <-]%lookup_singleton_Some.
  - intros cls [c [<- <-]%lookup_singleton_Some]. done.
  - intros cls nm f r Hf Hr.
    apply getattr_method_owner in Hf as (o & k & _ & Hk & Hf).
    apply lookup_singleton_Some in Hk as [<- <-]. cbn in Hf.
    apply lookup_insert_Some in Hf as [[_ <-]|[_ Hf]]; [done|].
    by apply lookup_singleton_Some in Hf as [_ <-].
  - by intros cls c [<- <-]%lookup_singleton_Some.
Qed.

Lemma getattr_method_alter (f : class → class) c (σ : store) cls nm :
  (∀ k, c_ancestors (f k) = c_ancestors k) →
  (∀ k, c_dict (f k) = c_dict k) →
  getattr_method (alter f c σ) cls nm = getattr_method σ cls nm.
Proof.
  intros Ha Hd. unfold getattr_method.
  rewrite mro_alter_ancestors by done.
  rewrite (lookup_mro_alter (λ k, c_dict k !! nm)); [done|].
  intros k. cbn. by rewrite Hd.
Qed.

(** Updates that leave ancestors and namespaces alone keep the
    invariant, as long as [TestCase] gets no [__tests_to_run] and the
    hooks of [TestCase] stay. *)
Lemma wf_alter (f : class → class) c (σ : store) :
  (∀ k, c_ancestors (f k) = c_ancestors k) →
  (∀ k, c_dict (f k) = c_dict k) →
  (∀ k, is_Some (c_tests_to_run k) → is_Some (c_tests_to_run (f k))) →
  (c = "TestCase" → ∀ k, c_tests_to_run (f k) = c_tests_to_run k) →
  (∀ k, hooks_pass k → hooks_pass (f k)) →
  wf σ → wf (alter f c σ).
Proof.
  intros Ha Hd Ht Hroot Hh [W1 W2 W3 W4 W5 W6].
  assert (Hlk : ∀ cls k', alter f c σ !! cls = Some k' →
            ∃ k, σ !! cls = Some k ∧ (k' = k ∨ (cls = c ∧ k' = f k))).
  { intros cls k'. rewrite lookup_alter. case_decide as Hc.
    - subst cls. destruct (σ !! c) as [k|]; [|done]. cbn.
      intros [= <-]. eauto.
    - eauto. }
  assert (Hnames : ∀ cls, getTestCaseNames (alter f c σ) cls
                          = getTestCaseNames σ cls).
  { intros cls. unfold getTestCaseNames. rewrite dir_alter_dict; [done..|].
    intros k. by rewrite Hd. }
  split.
  - destruct W1 as (tc & Htc & Hanc & Htests).
    rewrite lookup_alter. case_decide as Hc.
    + subst c. rewrite Htc. cbn. eexists. split; [done|].
      by rewrite Ha, (Hroot eq_refl).
    + eauto.
  - intros cls k' a Hk' Hin.
    destruct (Hlk _ _ Hk') as (k & Hk & Hcase).
    assert (Hin' : a ∈ c_ancestors k).
    { destruct Hcase as [->|[_ ->]]; [done|]. by rewrite Ha in Hin. }
    destruct (W2 _ _ _ Hk Hin') as [ka Hka].
    rewrite lookup_alter. case_decide; [subst; rewrite Hka|]; eauto.
  - intros cls k' Hk' Hne.
    destruct (Hlk _ _ Hk') as (k & Hk & Hcase).
    destruct (W3 _ _ Hk Hne) as [Hin Hs].
    destruct Hcase as [->|[_ ->]]; [done|]. rewrite Ha. eauto.
  - intros cls [k' Hk'] Hne.
    destruct (Hlk _ _ Hk') as (k & Hk & _).
    destruct (W4 cls (mk_is_Some _ _ Hk) Hne) as (tc & Htc & Hp).
    rewrite lookup_alter. case_decide; [|eauto].
    subst c. rewrite Htc. cbn. eauto.
  - intros cls nm g r. rewrite getattr_method_alter by done. apply W5.
  - intros cls k' Hk' Hne. rewrite Hnames.
    destruct (Hlk _ _ Hk') as (k & Hk & Hcase).
    destruct (W6 _ _ Hk Hne) as (Hu & Hd' & Hn).
    destruct Hcase as [->|[_ ->]]; [done|]. by rewrite Hd.
Qed.

Lemma wf_assign σ c v :
  wf σ → is_Some (state_of σ c) → wf (assign_tests_to_run c v σ).
Proof.
  intros Hwf [w Hw]. apply wf_alter; try done.
  intros ->. exfalso. destruct (wf_root _ Hwf) as (tc & Htc & _ & Hn).
  unfold state_of in Hw. rewrite Htc in Hw. cbn in Hw. congruence.
Qed.

Lemma wf_set_hooks σ : wf σ → wf (BeforeAfterTestCaseMeta.SetBeforeAfterTestCaseAttr σ).
Proof. intros Hwf. by apply wf_alter. Qed.

(** A class other than [TestCase] is instrumented. *)
Lemma wf_instrumented σ leaf :
  wf σ → is_Some (σ !! leaf) → leaf ≠ "TestCase" → instrumented σ leaf.
Proof.
  intros [W1 W2 W3 W4 W5 W6] [c Hc] Hne.
  destruct (W3 _ _ Hc Hne) as [Hroot Hs].
  destruct (W4 leaf (mk_is_Some _ _ Hc) Hne) as (tc & Htc & Hb & Ha).
  destruct (W6 _ _ Hc Hne) as ((mdu & gu & Hu) & (mdd & gd & Hd) & Hn).
  assert (Hmro : "TestCase" ∈ mro σ leaf).
  { unfold mro. rewrite Hc. by right. }
  split.
  - unfold state_of. by rewrite Hc.
  - exists mdu, gu. pose proof (getattr_method_own _ _ _ _ _ Hc Hu) as Hg.
    split; [done|]. pose proof (W5 _ _ _ RSetUp Hg eq_refl) as Hp.
    cbn in Hp. by apply andb_True in Hp as [_ Hp].
  - exists mdd, gd. pose proof (getattr_method_own _ _ _ _ _ Hc Hd) as Hg.
    split; [done|]. pose proof (W5 _ _ _ RTearDown Hg eq_refl) as Hp.
    cbn in Hp. by apply andb_True in Hp as [_ Hp].
  - intros n Hin. destruct (Hn n Hin) as (md & g & Hg).
    exists md, g. pose proof (getattr_method_own _ _ _ _ _ Hc Hg) as Hg'.
    split; [done|].
    apply elem_of_getTestCaseNames in Hin as [Hpre _].
    pose proof (W5 _ _ _ _ Hg' (role_of_test _ Hpre)) as Hp.
    cbn in Hp. by apply andb_True in Hp as [_ Hp].
  - unfold before_hook. apply fmap_is_Some.
    apply (lookup_mro_is_Some _ _ _ "TestCase"); [done|].
    rewrite Htc. cbn. rewrite Hb. eauto.
  - unfold after_hook. apply fmap_is_Some.
    apply (lookup_mro_is_Some _ _ _ "TestCase"); [done|].
    rewrite Htc. cbn. rewrite Ha. eauto.
Qed.

Lemma lookup_insert_is_Some' (σ : store) i j (x : class) :
  is_Some (σ !! j) → is_Some (<[i := x]> σ !! j).
Proof.
  intros Hj. rewrite lookup_insert. case_decide; [eauto|done].
Qed.

(** Adding a class that carries its three kinds of wrappers keeps the
    invariant. *)
Lemma wf_put σ name base b hb ha D v :
  wf σ → σ !! name = None → σ !! base = Some b →
  (∃ tc, σ !! "TestCase" = Some tc ∧ hooks_pass tc) →
  visible_roles σ name base b hb ha D →
  (∃ md g, D !! "setUp" = Some (setUp_closure md
     (getTestCaseNames (put σ name base b hb ha D (Some v)) name) g)) →
  (∃ md g, D !! "tearDown" = Some (tearDown_closure md g)) →
  (∀ n, n ∈ getTestCaseNames (put σ name base b hb ha D (Some v)) name →
        ∃ md g, D !! n = Some (test_closure md g n)) →
  wf (put σ name base b hb ha D (Some v)).
Proof.
  intros [W1 W2 W3 W4 W5 W6] Hfresh Hbase Hhooks Hvis Hu Hd Hn.
  assert (Hne : name ≠ "TestCase").
  { intros ->. destruct W1 as (tc & Htc & _). congruence. }
  assert (Hlk : ∀ cls k, put σ name base b hb ha D (Some v) !! cls = Some k →
            (cls = name ∧ k = Class (base :: c_ancestors b) D (Some v) hb ha)
            ∨ (cls ≠ name ∧ σ !! cls = Some k)).
  { intros cls k. unfold put. rewrite lookup_insert. case_decide.
    - intros [= <-]. left. by subst.
    - intros Hk. by right. }
  split.
  - destruct W1 as (tc & Htc & Hanc & Htests). exists tc.
    unfold put. by rewrite lookup_insert_ne.
  - intros cls k a Hk Ha. apply lookup_insert_is_Some'.
    destruct (Hlk _ _ Hk) as [[-> ->]|[_ Hk']]; [|by eapply W2].
    cbn in Ha. apply elem_of_cons in Ha as [->|Ha]; [eauto|by eapply W2].
  - intros cls k Hk Hcls.
    destruct (Hlk _ _ Hk) as [[-> ->]|[_ Hk']]; [|by eapply W3].
    cbn. split; [|eauto].
    destruct (decide (base = "TestCase")) as [->|Hb]; [by left|].
    right. by apply (W3 _ _ Hbase Hb).
  - intros cls _ _. destruct Hhooks as (tc & Htc & Hp). exists tc.
    unfold put. by rewrite lookup_insert_ne.
  - intros cls nm f r.
    destruct (decide (cls = name)) as [->|Hcls].
    + rewrite (getattr_put_tv σ name base b hb ha Hfresh Hbase W2 D _ None).
      apply Hvis.
    + destruct (σ !! cls) as [k|] eqn:Hk.
      * rewrite (getattr_put_old σ name base b hb ha Hfresh W2 D _ cls k)
          by done.
        apply W5.
      * unfold getattr_method, mro, put.
        rewrite lookup_insert_ne, Hk by done. done.
  - intros cls k Hk Hcls.
    destruct (Hlk _ _ Hk) as [[-> ->]|[Hne' Hk']]; [done|].
    unfold getTestCaseNames.
    rewrite (dir_put_old σ name base b hb ha Hfresh W2 D _ cls k) by done.
    by apply W6.
Qed.

Lemma put_set_hooks σ name base b hb ha D tv :
  name ≠ "TestCase" →
  BeforeAfterTestCaseMeta.SetBeforeAfterTestCaseAttr (put σ name base b hb ha D tv)
  = put (BeforeAfterTestCaseMeta.SetBeforeAfterTestCaseAttr σ) name base b hb ha D tv.
Proof.
  intros Hne. unfold BeforeAfterTestCaseMeta.SetBeforeAfterTestCaseAttr, put.
  by rewrite alter_insert_ne.
Qed.

Lemma put_ancestors σ name base b b' hb ha D tv :
  c_ancestors b' = c_ancestors b →
  put σ name base b' hb ha D tv = put σ name base b hb ha D tv.
Proof. intros Hb. unfold put. by rewrite Hb. Qed.

Section Define.
Context (σ : store) (d : class_decl) (b : class).
Hypothesis Hwf : wf σ.
Hypothesis Hfresh : σ !! d_name d = None.
Hypothesis Hbase : σ !! d_base d = Some b.

Abbreviation new := (put σ (d_name d) (d_base d) b
                         (d_setUpTestCase d) (d_tearDownTestCase d)).
Abbreviation new_roles := (visible_roles σ (d_name d) (d_base d) b
                             (d_setUpTestCase d) (d_tearDownTestCase d)).
Abbreviation declared_dict := (declared_dict σ d).

Lemma class_statement_put :
  class_statement d σ = Some (new declared_dict None).
Proof. unfold class_statement. by rewrite Hfresh, Hbase. Qed.

(** The namespace [__init__] leaves in the new class: the wrappers
    close over what the class offered before, under the same metadata. *)
Lemma init_put σ' :
  BeforeAfterTestCaseMeta.__init__ (d_name d) (new declared_dict None) = Some σ' →
  ∃ D, σ' = BeforeAfterTestCaseMeta.SetBeforeAfterTestCaseAttr (new D (Some PyNone)) ∧
       new_roles D ∧
       getTestCaseNames (new D (Some PyNone)) (d_name d)
         = getTestCaseNames (new declared_dict None) (d_name d) ∧
       (∀ nm, func_meta <$> getattr_method (new D (Some PyNone)) (d_name d) nm
              = func_meta <$> getattr_method (new declared_dict None)
                                (d_name d) nm) ∧
       (∃ g, getattr_method (new declared_dict None) (d_name d) "setUp"
               = Some g ∧
             D !! "setUp" = Some (setUp_closure (func_meta g)
               (getTestCaseNames (new declared_dict None) (d_name d)) g)) ∧
       (∃ md g, D !! "tearDown" = Some (tearDown_closure md g)) ∧
       (∀ n, n ∈ getTestCaseNames (new declared_dict None) (d_name d) →
             ∃ md g, D !! n = Some (test_closure md g n)).
Proof.
  pose proof (wf_closed _ Hwf) as Hcl.
  pose proof (wf_roles _ Hwf) as Hro.
  unfold BeforeAfterTestCaseMeta.__init__. cbn zeta.
  set (tn := getTestCaseNames (new declared_dict None) (d_name d)).
  rewrite assign_put. set (tv := Some PyNone).
  unfold BeforeAfterTestCaseMeta.SetSetUpAttr.
  destruct (getattr_method (new declared_dict tv) (d_name d) "setUp")
    as [fu|] eqn:Hfu; [|done]. cbn [mbind option_bind].
  destruct (BeforeAfterTestCaseMeta.SetMethod _ _ _ _) as [σ2|] eqn:Hs2; [|done].
  apply SetMethod_put in Hs2 as (orig & Ho & ->).
  rewrite Hfu in Ho. injection Ho as <-. cbn [set_meta mbind option_bind].
  set (D2 := <["setUp" := setUp_closure (func_meta fu) tn fu]> declared_dict).
  unfold BeforeAfterTestCaseMeta.SetTearDownAttr.
  destruct (getattr_method (new D2 tv) (d_name d) "tearDown")
    as [fd|] eqn:Hfd; [|done]. cbn [mbind option_bind].
  destruct (BeforeAfterTestCaseMeta.SetMethod _ _ _ _) as [σ3|] eqn:Hs3; [|done].
  apply SetMethod_put in Hs3 as (orig & Ho & ->).
  rewrite Hfd in Ho. injection Ho as <-. cbn [set_meta mbind option_bind].
  set (D3 := <["tearDown" := tearDown_closure (func_meta fd) fd]> D2).
  unfold BeforeAfterTestCaseMeta.SetTestMethodAttrs.
  destruct (BeforeAfterTestCaseMeta.wrap_tests _ _ _) as [σ4|] eqn:Hs4; [|done].
  cbn [mbind option_bind]. intros [= <-].
  assert (Hr1 : new_roles declared_dict).
  { by apply declared_visible_roles. }
  assert (Hr2 : new_roles D2).
  { eapply (insert_visible_roles _ _ _ _ _ _ Hfresh Hbase Hcl); [|..|done].
    - by rewrite (getattr_put_tv _ _ _ _ _ _ Hfresh Hbase Hcl _ _ tv).
    - intros r [= <-]. cbn.
      apply (Hr1 "setUp" fu RSetUp); [|done].
      by rewrite (getattr_put_tv _ _ _ _ _ _ Hfresh Hbase Hcl _ _ tv). }
  assert (Hr3 : new_roles D3).
  { eapply (insert_visible_roles _ _ _ _ _ _ Hfresh Hbase Hcl); [|..|done].
    - by rewrite (getattr_put_tv _ _ _ _ _ _ Hfresh Hbase Hcl _ _ tv).
    - intros r [= <-]. cbn.
      apply (Hr2 "tearDown" fd RTearDown); [|done].
      by rewrite (getattr_put_tv _ _ _ _ _ _ Hfresh Hbase Hcl _ _ tv). }
  assert (Htn : ∀ n, n ∈ elements tn → String.prefix "test" n = true).
  { intros n Hn. apply elem_of_elements in Hn.
    by apply elem_of_getTestCaseNames in Hn as [Hp _]. }
  apply (wrap_tests_put _ _ _ _ _ _ Hfresh Hbase Hcl) in Hs4
    as (D & -> & HrD & Hdir & Hmeta & Hout & Hin); [|done..].
  exists D. split; [done|]. split; [done|].
  assert (Hnot : ∀ nm, String.prefix "test" nm = false → nm ∉ elements tn).
  { intros nm Hnm Hin'. apply Htn in Hin'. congruence. }
  split; [|split; [|split; [|split]]].
  - unfold tn, getTestCaseNames. rewrite Hdir. unfold D3.
    rewrite (insert_visible_dir _ _ _ _ _ _ Hfresh Hbase Hcl _ _ _ _ _ Hfd).
    unfold D2.
    rewrite (insert_visible_dir _ _ _ _ _ _ Hfresh Hbase Hcl _ _ _ _ _ Hfu).
    by rewrite !(dir_put_new _ _ _ _ _ _ Hfresh Hbase Hcl).
  - intros nm. rewrite Hmeta. unfold D3.
    rewrite (insert_visible_meta _ _ _ _ _ _ Hfresh Hbase Hcl _ _ _ _ _ Hfd)
      by done.
    unfold D2.
    rewrite (insert_visible_meta _ _ _ _ _ _ Hfresh Hbase Hcl _ _ _ _ _ Hfu)
      by done.
    by rewrite (getattr_put_tv _ _ _ _ _ _ Hfresh Hbase Hcl _ _ None).
  - exists fu. split.
    + by rewrite (getattr_put_tv _ _ _ _ _ _ Hfresh Hbase Hcl _ _ tv).
    + rewrite (Hout "setUp") by (by apply Hnot).
      unfold D3. rewrite lookup_insert_ne by done.
      unfold D2. by rewrite lookup_insert_eq.
  - exists (func_meta fd), fd.
    rewrite (Hout "tearDown") by (by apply Hnot).
    unfold D3. by rewrite lookup_insert_eq.
  - intros n Hn. apply Hin. by apply elem_of_elements.
Qed.

End Define.

(** Defining a class keeps the invariant. *)
Lemma define_class_wf σ d σ' :
  wf σ → define_class d σ = Some σ' → wf σ'.
Proof.
  intros Hwf. unfold define_class.
  destruct (σ !! d_name d) as [k|] eqn:Hfresh.
  { unfold class_statement. by rewrite Hfresh. }
  destruct (σ !! d_base d) as [b|] eqn:Hbase.
  2: { unfold class_statement. by rewrite Hfresh, Hbase. }
  rewrite (class_statement_put σ d b Hfresh Hbase). cbn [mbind option_bind].
  intros Hinit.
  apply (init_put σ d b Hwf Hfresh Hbase) in Hinit
    as (D & -> & HrD & Hnames & _ & (gu & _ & Hu) & Hd & Hn).
  destruct (wf_root _ Hwf) as (tc & Htc & _).
  assert (Hne : d_name d ≠ "TestCase") by (intros He; congruence).
  rewrite put_set_hooks by done.
  set (σh := BeforeAfterTestCaseMeta.SetBeforeAfterTestCaseAttr σ).
  pose proof (wf_set_hooks _ Hwf) as Hwfh. fold σh in Hwfh.
  assert (Hfreshh : σh !! d_name d = None).
  { unfold σh, BeforeAfterTestCaseMeta.SetBeforeAfterTestCaseAttr.
    by rewrite lookup_alter_ne. }
  assert (Hbh : ∃ bh, σh !! d_base d = Some bh
                      ∧ c_ancestors bh = c_ancestors b).
  { unfold σh, BeforeAfterTestCaseMeta.SetBeforeAfterTestCaseAttr. rewrite lookup_alter.
    case_decide as Hb; [|eauto]. rewrite Hb, Hbase. cbn. eauto. }
  destruct Hbh as (bh & Hbaseh & Hanc).
  rewrite <- (put_ancestors σh _ _ b bh) by done.
  assert (Hget : ∀ nm tv tv',
    getattr_method (put σh (d_name d) (d_base d) bh (d_setUpTestCase d)
                      (d_tearDownTestCase d) D tv) (d_name d) nm
    = getattr_method (put σ (d_name d) (d_base d) b (d_setUpTestCase d)
                        (d_tearDownTestCase d) D tv') (d_name d) nm).
  { intros nm tv tv'.
    rewrite (getattr_put_new _ _ _ _ _ _ Hfreshh Hbaseh (wf_closed _ Hwfh)).
    rewrite (getattr_put_new _ _ _ _ _ _ Hfresh Hbase (wf_closed _ Hwf)).
    destruct (D !! nm); [done|].
    unfold σh, BeforeAfterTestCaseMeta.SetBeforeAfterTestCaseAttr.
    by rewrite getattr_method_alter. }
  assert (Hnamesh :
    getTestCaseNames (put σh (d_name d) (d_base d) bh (d_setUpTestCase d)
                        (d_tearDownTestCase d) D (Some PyNone)) (d_name d)
    = getTestCaseNames (put σ (d_name d) (d_base d) b (d_setUpTestCase d)
        (d_tearDownTestCase d) (declared_dict σ d) None) (d_name d)).
  { rewrite <- Hnames. unfold getTestCaseNames. f_equal.
    apply set_eq. intros nm. rewrite !elem_of_dir. by rewrite (Hget _ _ (Some PyNone)). }
  apply wf_put; try done.
  - exists (with_hooks Pass Pass tc). split; [|done].
    unfold σh, BeforeAfterTestCaseMeta.SetBeforeAfterTestCaseAttr.
    by rewrite lookup_alter_eq, Htc.
  - intros nm f r. rewrite (Hget _ _ None). apply HrD.
  - rewrite Hnamesh. eauto.
  - by rewrite Hnamesh.
Qed.

(** ** Reachable stores *)

(** A call on an instance of a class that has no [__tests_to_run]
    anywhere along its MRO cannot change the store. *)
Lemma call_exec_no_attribute self :
  (∀ f σ, find_tests_to_run σ (type_of self) = None →
          st (call f self σ) = σ) ∧
  (∀ b σ, find_tests_to_run σ (type_of self) = None →
          st (exec b self σ) = σ).
Proof.
  apply func_body_mutind.
  - intros md b IH σ Hv. cbn [call]. eauto.
  - intros md tn g IH σ Hv. cbn [call].
    unfold BeforeAfterTestCaseMeta.setUp, bind, read_tests_to_run.
    by rewrite Hv.
  - intros md g IH σ Hv. cbn [call].
    unfold BeforeAfterTestCaseMeta.tearDown, bind.
    pose proof (IH σ Hv) as Hg.
    destruct (call g self σ) as [[σ1 t1] [[]|e]]; cbn in Hg; subst σ1;
      [|done].
    unfold read_tests_to_run. by rewrite Hv.
  - intros md g IH n σ Hv. cbn [call].
    unfold BeforeAfterTestCaseMeta.test, bind, discard. by rewrite Hv.
  - done.
  - intros l k IH σ Hv. cbn [exec]. unfold bind, emit.
    pose proof (IH σ Hv) as Hk.
    by destruct (exec k self σ) as [[σ' t] r].
  - done.
  - intros f IHf k IHk σ Hv. cbn [exec]. unfold bind.
    pose proof (IHf σ Hv) as Hf.
    destruct (call f self σ) as [[σ1 t1] [[]|e]]; cbn in Hf; subst σ1;
      [|done].
    pose proof (IHk σ Hv) as Hk.
    by destruct (exec k self σ) as [[σ' t] r].
Qed.

Lemma wf_find_tests_to_run σ cls :
  wf σ → state_of σ cls = None → find_tests_to_run σ cls = None.
Proof.
  intros Hwf Hs. unfold find_tests_to_run, mro.
  destruct (σ !! cls) as [c|] eqn:Hc; [|done].
  destruct (decide (cls = "TestCase")) as [->|Hne].
  - destruct (wf_root _ Hwf) as (tc & Htc & Hanc & Ht).
    assert (c = tc) as -> by congruence.
    rewrite Hanc. cbn. by rewrite Htc; cbn; rewrite Ht.
  - destruct (wf_derived _ Hwf _ _ Hc Hne) as [_ [v Hv]].
    unfold state_of in Hs. rewrite Hc in Hs. cbn in Hs. congruence.
Qed.

Lemma call_wf f self σ : wf σ → wf (st (call f self σ)).
Proof.
  intros Hwf. destruct (state_of σ (type_of self)) as [v|] eqn:Hv.
  - destruct (call_state_of f self σ v Hv) as (v' & -> & _).
    apply wf_assign; [done|]. eauto.
  - rewrite (proj1 (call_exec_no_attribute self)); [done|].
    by apply wf_find_tests_to_run.
Qed.

Lemma call_method_wf nm self σ : wf σ → wf (st (call_method nm self σ)).
Proof.
  intros Hwf. unfold call_method.
  destruct (getattr_method _ _ _); [by apply call_wf|done].
Qed.

Lemma run_wf self σ : wf σ → wf (st (run self σ)).
Proof.
  intros Hwf. unfold run.
  pose proof (call_method_wf "setUp" self σ Hwf) as H1.
  destruct (call_method "setUp" self σ) as [[σ1 t1] [[]|e]]; [|done].
  cbn in H1. unfold run_test.
  pose proof (call_method_wf (testMethodName self) self σ1 H1) as H2.
  destruct (call_method (testMethodName self) self σ1) as [[σ2 t2] r2].
  cbn in H2.
  pose proof (call_method_wf "tearDown" self σ2 H2) as H3.
  by destruct (call_method "tearDown" self σ2) as [[σ3 t3] r3].
Qed.

Lemma reachable_wf σ : reachable σ → wf σ.
Proof.
  induction 1 as [|d σ σ' _ IH Hd|self σ _ IH].
  - apply wf_initial.
  - by eapply define_class_wf.
  - by apply run_wf.
Qed.

Lemma reachable_run_all suite : ∀ σ,
  reachable σ → reachable (st (run_all suite σ)).
Proof.
  induction suite as [|self suite IH]; intros σ Hσ; [done|].
  cbn. pose proof (reachable_run self σ Hσ) as H1.
  destruct (run self σ) as [[σ1 t1] e1]. cbn in H1.
  specialize (IH σ1 H1).
  by destruct (run_all suite σ1) as [[σ2 t2] e2].
Qed.

Lemma reachable_define_classes ds : ∀ σ σ',
  reachable σ → define_classes ds σ = Some σ' → reachable σ'.
Proof.
  unfold define_classes.
  induction ds as [|d ds IH] using rev_ind; intros σ σ' Hσ.
  - cbn. by intros [= <-].
  - rewrite foldl_app. cbn.
    destruct (foldl _ (Some σ) ds) as [σ1|] eqn:H1; [|done]. cbn.
    intros Hd. eapply reachable_define; [|done]. by eapply IH.
Qed.

(** An instrumented class: any class of a reachable store but
    [TestCase]. *)
Lemma reachable_instrumented σ leaf :
  reachable σ → is_Some (σ !! leaf) → leaf ≠ "TestCase" →
  instrumented σ leaf.
Proof. intros Hσ. apply wf_instrumented. by apply reachable_wf. Qed.

(** ** The sample hierarchies are reachable *)

Lemma sample_store_defined : Sample.hierarchy = Some Examples.store.
Proof. vm_compute. reflexivity. Qed.

Lemma sample_store_reachable : reachable Examples.store.
Proof.
  eapply reachable_define_classes; [apply reachable_initial|].
  apply sample_store_defined.
Qed.

Lemma flaky_defined :
  define_classes [Examples.F] initial_store = Some Examples.flaky.
Proof. vm_compute. reflexivity. Qed.

Lemma flaky_reachable : reachable Examples.flaky.
Proof.
  eapply reachable_define_classes; [apply reachable_initial|].
  apply flaky_defined.
Qed.

Lemma only_A_defined :
  define_classes [Sample.A] initial_store = Some Examples.only_A.
Proof. vm_compute. reflexivity. Qed.

Lemma only_A_reachable : reachable Examples.only_A.
Proof.
  eapply reachable_define_classes; [apply reachable_initial|].
  apply only_A_defined.
Qed.

Lemma B_declared_eq :
  class_statement Sample.B Examples.only_A = Some Examples.B_declared.
Proof. vm_compute. reflexivity. Qed.

Lemma B_instrumented_eq :
  BeforeAfterTestCaseMeta.__init__ "B" Examples.B_declared = Some Examples.B_instrumented.
Proof. vm_compute. reflexivity. Qed.

Lemma overriding_defined :
  define_classes [Examples.Base; Examples.Leaf] initial_store
  = Some Examples.overriding.
Proof. vm_compute. reflexivity. Qed.

Lemma overriding_reachable : reachable Examples.overriding.
Proof.
  eapply reachable_define_classes; [apply reachable_initial|].
  apply overriding_defined.
Qed.

(** ** The wrapped methods of an instrumented class *)

Lemma call_method_setUp_sentinel σ self :
  instrumented σ (type_of self) →
  state_of σ (type_of self) = Some PyNone →
  ∃ md g,
    getattr_method σ (type_of self) "setUp"
      = Some (setUp_closure md (getTestCaseNames σ (type_of self)) g) ∧
    plays RSetUp g ∧
    call_method "setUp" self σ =
      let σ1 := assign_tests_to_run (type_of self)
                  (PySet (getTestCaseNames σ (type_of self))) σ in
      match before_hook σ (type_of self) with
      | Some Pass =>
          (σ1, EBefore (type_of self) :: tr (call g self σ1),
           res (call g self σ1))
      | Some (Fails e) => (σ1, [EBefore (type_of self)], Exc e)
      | None => (σ1, [], Exc AttributeError)
      end.
Proof.
  intros [_ (md & g & Hg & Hp) _ _ _ _] Hv. exists md, g.
  split; [done|]. split; [done|].
  unfold call_method. rewrite Hg, call_setUp_sentinel by done. cbn zeta.
  destruct (before_hook σ (type_of self)) as [[|e]|]; cbn; try done.
  set (σ1 := assign_tests_to_run _ _ σ).
  assert (Hv1 : state_of σ1 (type_of self)
                = Some (PySet (getTestCaseNames σ (type_of self)))).
  { apply state_of_assign_eq. by eapply state_of_is_Some. }
  destruct (proj1 (call_exec_quiet self RSetUp) g σ1 _ Hv1 I Hp)
    as (Hst & _ & _).
  destruct (call g self σ1) as [[σ2 t2] r2]. cbn in *. by subst σ2.
Qed.

Lemma call_method_setUp_started σ self s :
  instrumented σ (type_of self) →
  state_of σ (type_of self) = Some (PySet s) →
  st (call_method "setUp" self σ) = σ ∧
  Forall is_user (tr (call_method "setUp" self σ)).
Proof.
  intros [_ (md & g & Hg & Hp) _ _ _ _] Hv.
  unfold call_method. rewrite Hg.
  rewrite (call_setUp_started _ _ _ _ _ s) by done.
  destruct (proj1 (call_exec_quiet self RSetUp) g σ _ Hv I Hp)
    as (Hst & Htr & _). done.
Qed.

(** * The claims *)

(** C9.  A wrapped test method called while the class is at the
    sentinel, that is before any wrapped [setUp] of the run, raises
    [AttributeError] ([None] has no [discard]); the test body does not
    run and nothing changes. *)
Theorem test_before_setUp_raises σ self n :
  reachable σ → is_Some (σ !! type_of self) → type_of self ≠ "TestCase" →
  n ∈ getTestCaseNames σ (type_of self) →
  state_of σ (type_of self) = Some PyNone →
  call_method n self σ = (σ, [], Exc AttributeError).
Proof.
  intros Hσ Hc Hne Hn Hv.
  destruct (reachable_instrumented σ _ Hσ Hc Hne) as [_ _ _ Ht _ _].
  destruct (Ht n Hn) as (md & g & Hg & _).
  unfold call_method. rewrite Hg. by apply call_test_sentinel.
Qed.

Lemma test_before_setUp_raises_witness :
  call_method "test2" (Instance "B" "test2") Examples.store
  = (Examples.store, [], Exc AttributeError).
Proof.
  apply (test_before_setUp_raises Examples.store (Instance "B" "test2")).
  - apply sample_store_reachable.
  - vm_compute. eauto.
  - vm_compute. discriminate.
  - vm_compute. reflexivity.
  - vm_compute. reflexivity.
Defined.

(** C3.  When the wrapped [setUp] of an instance runs while its class is
    at the sentinel, the set it installs is the set of test names
    visible on the class of the instance: the wrapper found on that class
    closes over those names, whatever it wraps (an own [setUp], or the
    wrapper of a base class that closes over the names of the base). *)
Theorem setUp_installs_leaf_test_names σ self :
  reachable σ → is_Some (σ !! type_of self) → type_of self ≠ "TestCase" →
  state_of σ (type_of self) = Some PyNone →
  state_of (st (call_method "setUp" self σ)) (type_of self)
  = Some (PySet (getTestCaseNames σ (type_of self))).
Proof.
  intros Hσ Hc Hne Hv.
  pose proof (reachable_instrumented σ _ Hσ Hc Hne) as Hi.
  destruct (call_method_setUp_sentinel σ self Hi Hv)
    as (md & g & _ & _ & ->). cbn zeta.
  destruct (before_hook σ (type_of self)) as [[|e]|];
    by apply state_of_assign_eq.
Qed.

Lemma setUp_installs_leaf_test_names_witness :
  state_of (st (call_method "setUp" (Instance "B" "test1") Examples.store)) "B"
  = Some (PySet (getTestCaseNames Examples.store "B"))
  ∧ getTestCaseNames Examples.store "B" ≠ getTestCaseNames Examples.store "A".
Proof.
  split.
  - apply (setUp_installs_leaf_test_names Examples.store
             (Instance "B" "test1")).
    + apply sample_store_reachable.
    + vm_compute. eauto.
    + vm_compute. discriminate.
    + vm_compute. reflexivity.
  - vm_compute. discriminate.
Defined.

(** C2, counterexample.  The hook of [F] raises in the [setUp] of
    [test1]; afterwards [F] holds the full set, not the sentinel, and the
    [setUp] of [test2] does not call the hook. *)
Lemma before_hook_is_retried_counterexample :
  res (run (Instance "F" "test1") Examples.flaky) = [Failure "no fixture"] ∧
  state_of (st (run (Instance "F" "test1") Examples.flaky)) "F"
    = Some (PySet {[ "test1"; "test2" ]}) ∧
  tr (call_method "setUp" (Instance "F" "test2")
        (st (run (Instance "F" "test1") Examples.flaky))) = [] ∧
  ¬ before_hook_is_retried Examples.flaky
      (Instance "F" "test1") (Instance "F" "test2").
Proof.
  split_and!; try by vm_compute.
  intros [Hs _]. vm_compute in Hs. discriminate.
Qed.

(** C2, amended.  If the before-class hook raises in the wrapped [setUp]
    of a test, the exception is recorded as the error of that test and
    nothing else of the test runs; the set of the class has been
    installed before the hook was called and stays installed, so the
    wrapped [setUp] of the next test of the class does not call the hook
    again. *)
Theorem before_hook_failure_is_not_retried σ self next e :
  reachable σ → is_Some (σ !! type_of self) → type_of self ≠ "TestCase" →
  type_of next = type_of self →
  state_of σ (type_of self) = Some PyNone →
  before_hook σ (type_of self) = Some (Fails e) →
  res (run self σ) = [e] ∧
  tr (run self σ) = [EBefore (type_of self)] ∧
  state_of (st (run self σ)) (type_of self)
    = Some (PySet (getTestCaseNames σ (type_of self))) ∧
  Forall is_user (tr (call_method "setUp" next (st (run self σ)))).
Proof.
  intros Hσ Hc Hne Hnext Hv Hh.
  pose proof (reachable_instrumented σ _ Hσ Hc Hne) as Hi.
  destruct (call_method_setUp_sentinel σ self Hi Hv)
    as (md & g & _ & _ & Hcall).
  cbn zeta in Hcall. rewrite Hh in Hcall.
  unfold run. rewrite Hcall. cbn.
  split; [done|]. split; [done|].
  assert (Hv1 : state_of (assign_tests_to_run (type_of self)
                   (PySet (getTestCaseNames σ (type_of self))) σ)
                  (type_of next)
                = Some (PySet (getTestCaseNames σ (type_of self)))).
  { rewrite Hnext. by apply state_of_assign_eq. }
  split; [by rewrite Hnext in Hv1|].
  eapply call_method_setUp_started; [|done].
  rewrite Hnext. by apply instrumented_assign.
Qed.

Lemma before_hook_failure_is_not_retried_witness :
  res (run (Instance "F" "test1") Examples.flaky) = [Failure "no fixture"] ∧
  tr (run (Instance "F" "test1") Examples.flaky) = [EBefore "F"] ∧
  state_of (st (run (Instance "F" "test1") Examples.flaky)) "F"
    = Some (PySet (getTestCaseNames Examples.flaky "F")) ∧
  Forall is_user (tr (call_method "setUp" (Instance "F" "test2")
                        (st (run (Instance "F" "test1") Examples.flaky)))).
Proof.
  apply (before_hook_failure_is_not_retried Examples.flaky
           (Instance "F" "test1") (Instance "F" "test2")
           (Failure "no fixture")).
  - apply flaky_reachable.
  - vm_compute. eauto.
  - vm_compute. discriminate.
  - reflexivity.
  - vm_compute. reflexivity.
  - vm_compute. reflexivity.
Defined.

(** C4.  The wrapped [tearDown] runs the function it wraps first (and
    stops there if that function raises).  Then, if and only if the set
    of the class is not the sentinel and is empty, it puts the sentinel
    back and calls the after-class hook; the sentinel is back whatever
    the hook does, and when the hook raises the wrapped [tearDown]
    raises. *)
Theorem tearDown_resets_then_calls_hook md g self σ σ1 t1 r1 v h :
  call g self σ = (σ1, t1, r1) →
  state_of σ1 (type_of self) = Some v →
  after_hook σ1 (type_of self) = Some h →
  match r1 with
  | Exc e => call (tearDown_closure md g) self σ = (σ1, t1, Exc e)
  | Ok _ =>
      if decide (drained v)
      then call (tearDown_closure md g) self σ
           = (assign_tests_to_run (type_of self) PyNone σ1,
              t1 ++ [EAfter (type_of self)], hook_result h)
           ∧ state_of (st (call (tearDown_closure md g) self σ))
               (type_of self) = Some PyNone
      else call (tearDown_closure md g) self σ = (σ1, t1, Ok tt)
  end.
Proof.
  intros Hg Hv Hh. rewrite (call_tearDown_eq _ _ _ _ _ _ _ _ Hg Hv).
  destruct r1 as [[]|e]; [|done]. rewrite Hh.
  unfold after_tearDown, drained. destruct v as [|s].
  - rewrite decide_False by tauto. cbn. by rewrite app_nil_r.
  - destruct (decide (size s = 0)) as [Hs|Hs]; cbn.
    + split; [done|]. apply state_of_assign_eq. by eapply state_of_is_Some.
    + by rewrite app_nil_r.
Qed.

Lemma tearDown_resets_then_calls_hook_witness :
  let self := Instance "G" "test1" in
  let σ := assign_tests_to_run "G" (PySet ∅) Examples.leaky in
  let g := Declared (Metadata "tearDown" None "unittest") Return in
  call (tearDown_closure (Metadata "tearDown" None "unittest") g) self σ
    = (assign_tests_to_run "G" PyNone σ, [EAfter "G"],
       Exc (Failure "cannot release"))
  ∧ state_of (st (call (tearDown_closure
                          (Metadata "tearDown" None "unittest") g) self σ))
      "G" = Some PyNone.
Proof.
  intros self σ g.
  exact (tearDown_resets_then_calls_hook
           (Metadata "tearDown" None "unittest") g self σ σ [] (Ok tt)
           (PySet ∅) (Fails (Failure "cannot release"))
           eq_refl ltac:(vm_compute; reflexivity)
           ltac:(vm_compute; reflexivity)).
Defined.

(** C10.  Instrumenting a class replaces [setUp], [tearDown] and every
    visible test method by a wrapper whose [__name__], [__doc__] and
    [__module__] are those of the method it replaces. *)
Theorem wrappers_keep_metadata σ d σ1 σ2 nm :
  reachable σ →
  class_statement d σ = Some σ1 →
  BeforeAfterTestCaseMeta.__init__ (d_name d) σ1 = Some σ2 →
  nm = "setUp" ∨ nm = "tearDown" ∨ nm ∈ getTestCaseNames σ1 (d_name d) →
  ∃ f1 f2, getattr_method σ1 (d_name d) nm = Some f1 ∧
           getattr_method σ2 (d_name d) nm = Some f2 ∧
           is_wrapper f2 ∧ func_meta f2 = func_meta f1.
Proof.
  intros Hσ Hcs Hinit Hnm. pose proof (reachable_wf _ Hσ) as Hwf.
  destruct (σ !! d_name d) as [k|] eqn:Hfresh.
  { unfold class_statement in Hcs. by rewrite Hfresh in Hcs. }
  destruct (σ !! d_base d) as [b|] eqn:Hbase.
  2: { unfold class_statement in Hcs. by rewrite Hfresh, Hbase in Hcs. }
  rewrite (class_statement_put σ d b Hfresh Hbase) in Hcs.
  injection Hcs as <-.
  apply (init_put σ d b Hwf Hfresh Hbase) in Hinit
    as (D & -> & _ & _ & Hmeta & (gu & _ & Hu) & (mdd & gd & Hd) & Hn).
  assert (Hcl : ∃ f2, D !! nm = Some f2 ∧ is_wrapper f2).
  { destruct Hnm as [->|[->|Hnm]]; [eauto..|].
    destruct (Hn nm Hnm) as (md & g & Hg). eauto. }
  destruct Hcl as (f2 & Hf2 & Hw).
  specialize (Hmeta nm).
  rewrite (getattr_put_new _ _ _ _ _ _ Hfresh Hbase (wf_closed _ Hwf) D)
    in Hmeta.
  rewrite Hf2 in Hmeta. cbn in Hmeta.
  destruct (getattr_method _ (d_name d) nm) as [f1|] eqn:Hf1; [|done].
  cbn in Hmeta. injection Hmeta as Hmeta.
  exists f1, f2. split; [done|]. split; [|split; [done|done]].
  unfold BeforeAfterTestCaseMeta.SetBeforeAfterTestCaseAttr.
  rewrite getattr_method_alter by done.
  rewrite (getattr_put_new _ _ _ _ _ _ Hfresh Hbase (wf_closed _ Hwf) D).
  by rewrite Hf2.
Qed.

Lemma wrappers_keep_metadata_witness :
  ∃ f1 f2, getattr_method Examples.B_declared "B" "test2" = Some f1 ∧
           getattr_method Examples.B_instrumented "B" "test2" = Some f2 ∧
           is_wrapper f2 ∧ func_meta f2 = func_meta f1.
Proof.
  apply (wrappers_keep_metadata Examples.only_A Sample.B
           Examples.B_declared Examples.B_instrumented "test2").
  - apply only_A_reachable.
  - apply B_declared_eq.
  - apply B_instrumented_eq.
  - right. right. vm_compute. reflexivity.
Defined.

Lemma run_all_once_each σ leaf order :
  reachable σ → is_Some (σ !! leaf) → leaf ≠ "TestCase" →
  completes σ leaf → state_of σ leaf = Some PyNone →
  order ≡ₚ elements (getTestCaseNames σ leaf) → order ≠ [] →
  st (run_all (suite_of leaf order) σ) = σ ∧
  once_each leaf (tr (run_all (suite_of leaf order) σ)).
Proof.
  intros Hσ Hc Hne Hcomp Hv Hperm Hord.
  pose proof (reachable_instrumented σ _ Hσ Hc Hne) as Hi.
  destruct (run_all_fresh σ leaf order Hi Hcomp Hv Hperm Hord)
    as (Hst & t & Ht & t1 & t2 & -> & H1 & H2).
  split; [done|]. by exists t1, t2.
Qed.

(** C5.  Every wrapped test method removes its name from the set of the
    class before it calls the function it wraps; removing a name that is
    not there changes nothing.  So the name is gone whatever the body
    does, and when every test of the class has run, failed or not, the
    after-class hook fires, once. *)
Theorem test_is_consumed_before_its_body σ leaf order :
  reachable σ → is_Some (σ !! leaf) → leaf ≠ "TestCase" →
  completes σ leaf → state_of σ leaf = Some PyNone →
  order ≡ₚ elements (getTestCaseNames σ leaf) → order ≠ [] →
  (∀ n, n ∈ getTestCaseNames σ leaf → ∃ md g,
     getattr_method σ leaf n = Some (test_closure md g n) ∧
     ∀ self σ' s, type_of self = leaf →
       state_of σ' leaf = Some (PySet s) →
       call (test_closure md g n) self σ'
         = call g self (assign_tests_to_run leaf (PySet (s ∖ {[n]})) σ') ∧
       state_of (st (call (test_closure md g n) self σ')) leaf
         = Some (PySet (s ∖ {[n]})) ∧
       (n ∉ s → assign_tests_to_run leaf (PySet (s ∖ {[n]})) σ' = σ')) ∧
  once_each leaf (tr (run_all (suite_of leaf order) σ)).
Proof.
  intros Hσ Hc Hne Hcomp Hv Hperm Hord.
  split; [|by apply run_all_once_each].
  pose proof (reachable_instrumented σ _ Hσ Hc Hne) as [_ _ _ Ht _ _].
  intros n Hn. destruct (Ht n Hn) as (md & g & Hg & Hp).
  exists md, g. split; [done|].
  intros self σ' s <- Hs.
  set (σa := assign_tests_to_run (type_of self) (PySet (s ∖ {[n]})) σ').
  assert (Hva : state_of σa (type_of self) = Some (PySet (s ∖ {[n]}))).
  { apply state_of_assign_eq. by eapply state_of_is_Some. }
  rewrite (call_test_started _ _ _ _ _ s) by done. fold σa.
  split; [done|]. split.
  - destruct (proj1 (call_exec_quiet self (RTest n)) g σa _ Hva)
      as (-> & _ & _); [apply not_elem_of_discard|done..].
  - intros Hns. unfold σa.
    rewrite difference_disjoint_L by (by apply disjoint_singleton_r).
    by apply assign_same.
Qed.

Lemma rotate_B :
  ["test2"; "test3"; "test1"]
  ≡ₚ elements (getTestCaseNames Examples.store "B").
Proof.
  vm_compute elements.
  apply (Permutation_cons_append ["test3"; "test1"] "test2").
Qed.

Lemma completes_B : completes Examples.store "B".
Proof. unfold completes. split_and!; vm_compute; done. Qed.

Lemma test_is_consumed_before_its_body_witness :
  res (run_all (suite_of "B" ["test2"; "test3"; "test1"]) Examples.store)
    = [Failure "boom"] ∧
  once_each "B"
    (tr (run_all (suite_of "B" ["test2"; "test3"; "test1"]) Examples.store)).
Proof.
  split; [by vm_compute|].
  apply (test_is_consumed_before_its_body Examples.store "B"
           ["test2"; "test3"; "test1"]).
  - apply sample_store_reachable.
  - vm_compute. eauto.
  - vm_compute. discriminate.
  - apply completes_B.
  - vm_compute. reflexivity.
  - apply rotate_B.
  - discriminate.
Defined.

(** C8.  After a complete run of a class the class is back at the
    sentinel; the wrapped [setUp] of the first test of a new run installs
    the set again and calls the before-class hook again, and the new run
    as a whole fires both hooks once more. *)
Theorem fresh_run_fires_hooks_again σ leaf order again :
  reachable σ → is_Some (σ !! leaf) → leaf ≠ "TestCase" →
  completes σ leaf → state_of σ leaf = Some PyNone →
  order ≡ₚ elements (getTestCaseNames σ leaf) → order ≠ [] →
  again ≡ₚ elements (getTestCaseNames σ leaf) → again ≠ [] →
  let σ' := st (run_all (suite_of leaf order) σ) in
  state_of σ' leaf = Some PyNone ∧
  (∀ self, type_of self = leaf →
     state_of (st (call_method "setUp" self σ')) leaf
       = Some (PySet (getTestCaseNames σ leaf)) ∧
     ∃ t, tr (call_method "setUp" self σ') = EBefore leaf :: t) ∧
  once_each leaf (tr (run_all (suite_of leaf again) σ')).
Proof.
  intros Hσ Hc Hne Hcomp Hv Hperm Hord Hperm' Hord'. cbn zeta.
  destruct (run_all_once_each σ leaf order) as [-> _]; try done.
  pose proof (reachable_instrumented σ _ Hσ Hc Hne) as Hi.
  split; [done|]. split; [|by apply run_all_once_each].
  intros self <-.
  destruct (call_method_setUp_sentinel σ self Hi Hv)
    as (md & g & _ & _ & ->). cbn zeta.
  destruct Hcomp as (_ & _ & -> & _). cbn.
  split; [by apply state_of_assign_eq|eauto].
Qed.

Lemma fresh_run_fires_hooks_again_witness :
  let σ' := st (run_all (suite_of "B" ["test2"; "test3"; "test1"])
                  Examples.store) in
  state_of σ' "B" = Some PyNone ∧
  (∀ self, type_of self = "B" →
     state_of (st (call_method "setUp" self σ')) "B"
       = Some (PySet (getTestCaseNames Examples.store "B")) ∧
     ∃ t, tr (call_method "setUp" self σ') = EBefore "B" :: t) ∧
  once_each "B" (tr (run_all (suite_of "B" ["test2"; "test3"; "test1"]) σ')).
Proof.
  apply (fresh_run_fires_hooks_again Examples.store "B"
           ["test2"; "test3"; "test1"] ["test2"; "test3"; "test1"]).
  - apply sample_store_reachable.
  - vm_compute. eauto.
  - vm_compute. discriminate.
  - apply completes_B.
  - vm_compute. reflexivity.
  - apply rotate_B.
  - discriminate.
  - apply rotate_B.
  - discriminate.
Defined.

(** C1, the failing input.  [Leaf] overrides [tearDown]: it calls
    [Base.tearDown(self)] and then cleans up.  The store is reachable,
    no [setUp] or [tearDown] body raises, both hooks pass, and the run is
    the only test of [Leaf].  The wrapper of [Base], reached through the
    call in the body of [Leaf.tearDown], finds the set empty and calls
    the after-class hook while the [tearDown] of [Leaf] is still running:
    the hook comes before ["Leaf.cleanup"], not after the [tearDown] body
    of the last test. *)
Lemma after_hook_fires_inside_overriding_tearDown :
  reachable Examples.overriding ∧
  completes Examples.overriding "Leaf" ∧
  state_of Examples.overriding "Leaf" = Some PyNone ∧
  elements (getTestCaseNames Examples.overriding "Leaf") = ["test1"] ∧
  run_all (suite_of "Leaf" ["test1"]) Examples.overriding
  = (Examples.overriding,
     [EBefore "Leaf"; EUser "Leaf" "t1"; EUser "Leaf" "Base.tearDown";
      EAfter "Leaf"; EUser "Leaf" "Leaf.cleanup"],
     []).
Proof.
  split; [apply overriding_reachable|].
  unfold completes. split_and!; by vm_compute.
Qed.

(** ** Wrapping more than once *)

Lemma rewrap_setUp_started layers f self σ s :
  state_of σ (type_of self) = Some (PySet s) →
  call (rewrap_setUp layers f) self σ = call f self σ.
Proof.
  intros Hv. induction layers as [|[md tn] layers IH]; [done|].
  cbn [rewrap_setUp]. by rewrite (call_setUp_started _ _ _ _ _ s).
Qed.

Lemma rewrap_test_absent layers n f self σ s :
  state_of σ (type_of self) = Some (PySet s) → n ∉ s →
  call (rewrap_test layers n f) self σ = call f self σ.
Proof.
  intros Hv Hn. induction layers as [|md layers IH]; [done|].
  cbn [rewrap_test]. rewrite (call_test_started _ _ _ _ _ s) by done.
  rewrite difference_disjoint_L by (by apply disjoint_singleton_r).
  by rewrite assign_same.
Qed.

(** A [tearDown] wrapper around a [tearDown] wrapper adds nothing: by
    the time the outer check runs, the inner one has either left a set
    that is not empty, or put the sentinel back. *)
Lemma call_tearDown_twice md md' g self σ :
  is_Some (state_of σ (type_of self)) →
  call (tearDown_closure md (tearDown_closure md' g)) self σ
  = call (tearDown_closure md' g) self σ.
Proof.
  intros [v Hv].
  destruct (call g self σ) as [[σ1 t1] r1] eqn:Hg.
  destruct (call_state_of g self σ v Hv) as (v1 & _ & Hv1).
  rewrite Hg in Hv1. cbn in Hv1.
  pose proof (call_tearDown_eq md' g self σ σ1 t1 r1 v1 Hg Hv1) as Hin.
  destruct r1 as [[]|e].
  - cbn zeta in Hin.
    destruct (after_tearDown _ _ v1 σ1) as [[σ2 t2] r2] eqn:Ha.
    unfold st, tr, res in Hin. cbn [fst snd] in Hin.
    assert (Hv2 : ∃ v2, state_of σ2 (type_of self) = Some v2
                        ∧ ¬ drained v2).
    { unfold after_tearDown in Ha. destruct v1 as [|s1].
      - injection Ha as <- <- <-. exists PyNone. split; [done|]. cbn. tauto.
      - destruct (decide (size s1 = 0)) as [Hs|Hs].
        + exists PyNone. split; [|cbn; tauto].
          destruct (after_hook σ1 _) as [h|]; cbn in Ha;
            injection Ha as <- <- <-;
            apply state_of_assign_eq; by eapply state_of_is_Some.
        + injection Ha as <- <- <-. exists (PySet s1). by split. }
    destruct Hv2 as (v2 & Hv2 & Hnd).
    rewrite (call_tearDown_eq md _ self σ σ2 (t1 ++ t2) r2 v2 Hin Hv2).
    rewrite Hin. destruct r2 as [[]|e]; [|done].
    assert (after_tearDown (type_of self) (after_hook σ2 (type_of self))
              v2 σ2 = (σ2, [], Ok tt)) as ->.
    { unfold after_tearDown. destruct v2 as [|s2]; [done|].
      cbn in Hnd. by rewrite decide_False. }
    cbn. by rewrite app_nil_r.
  - by rewrite (call_tearDown_eq md _ self σ σ1 t1 (Exc e) v1 Hin Hv1).
Qed.

Lemma rewrap_tearDown_once layers : ∀ md md' f self σ,
  is_Some (state_of σ (type_of self)) →
  call (tearDown_closure md (rewrap_tearDown layers f)) self σ
  = call (tearDown_closure md' f) self σ.
Proof.
  induction layers as [|md2 layers IH]; intros md md' f self σ Hv; [done|].
  cbn [rewrap_tearDown]. rewrite call_tearDown_twice by done. by apply IH.
Qed.

(** C6.  Wrapping a method K = 1 + [length layers] times is observed as
    wrapping it once: the same final store, the same sequence of hook
    calls and declared bodies, the same outcome.  For [setUp] the inner
    wrappers may close over other test names (those of the ancestors);
    it is the outermost set that is installed. *)
Theorem rewrapping_is_idempotent f self σ :
  is_Some (state_of σ (type_of self)) →
  (∀ md tn layers,
     call (setUp_closure md tn (rewrap_setUp layers f)) self σ
     = call (setUp_closure md tn f) self σ) ∧
  (∀ md layers,
     call (tearDown_closure md (rewrap_tearDown layers f)) self σ
     = call (tearDown_closure md f) self σ) ∧
  (∀ md n layers,
     call (test_closure md (rewrap_test layers n f) n) self σ
     = call (test_closure md f n) self σ).
Proof.
  intros [v Hv]. split; [|split].
  - intros md tn layers. destruct v as [|s].
    + rewrite !call_setUp_sentinel by done. cbn zeta.
      rewrite (rewrap_setUp_started _ _ _ _ tn); [done|].
      apply state_of_assign_eq. by eapply state_of_is_Some.
    + rewrite !(call_setUp_started _ _ _ _ _ s) by done.
      by apply (rewrap_setUp_started _ _ _ _ s).
  - intros md layers. apply rewrap_tearDown_once. eauto.
  - intros md n layers. destruct v as [|s].
    + by rewrite !call_test_sentinel.
    + rewrite !(call_test_started _ _ _ _ _ s) by done.
      apply (rewrap_test_absent _ _ _ _ _ (s ∖ {[n]})).
      * apply state_of_assign_eq. by eapply state_of_is_Some.
      * apply not_elem_of_discard.
Qed.

(** A class that inherits [setUp] wraps the wrapper of its base: the
    situation [rewrap_setUp] describes. *)
Lemma inherited_setUp_is_rewrapped σ d σ' :
  reachable σ → define_class d σ = Some σ' →
  d_methods d !! "setUp" = None →
  ∃ g, getattr_method σ (d_base d) "setUp" = Some g ∧
       getattr_method σ' (d_name d) "setUp"
       = Some (setUp_closure (func_meta g)
                 (getTestCaseNames σ' (d_name d)) g).
Proof.
  intros Hσ Hdef Hno. pose proof (reachable_wf _ Hσ) as Hwf.
  pose proof (reachable_define _ _ _ Hσ Hdef) as Hσ'.
  unfold define_class in Hdef.
  destruct (σ !! d_name d) as [k|] eqn:Hfresh.
  { unfold class_statement in Hdef. by rewrite Hfresh in Hdef. }
  destruct (σ !! d_base d) as [b|] eqn:Hbase.
  2: { unfold class_statement in Hdef. by rewrite Hfresh, Hbase in Hdef. }
  rewrite (class_statement_put σ d b Hfresh Hbase) in Hdef.
  cbn [mbind option_bind] in Hdef.
  apply (init_put σ d b Hwf Hfresh Hbase) in Hdef
    as (D & -> & _ & Hnames & _ & (g & Hg & Hu) & _ & _).
  rewrite (getattr_put_new _ _ _ _ _ _ Hfresh Hbase (wf_closed _ Hwf))
    in Hg.
  unfold declared_dict in Hg. rewrite map_lookup_imap, Hno in Hg.
  cbn in Hg. exists g. split; [done|].
  unfold BeforeAfterTestCaseMeta.SetBeforeAfterTestCaseAttr.
  rewrite getattr_method_alter by done.
  rewrite (getattr_put_new _ _ _ _ _ _ Hfresh Hbase (wf_closed _ Hwf)).
  rewrite Hu. do 2 f_equal. rewrite <- Hnames.
  unfold getTestCaseNames. by rewrite dir_alter_dict.
Qed.

Lemma rewrapping_is_idempotent_witness :
  let f := Declared (Sample.meta_of "setUp") (Emit "A.setUp" Return) in
  let self := Instance "B" "test1" in
  let md := Sample.meta_of "setUp" in
  let names := getTestCaseNames Examples.store "B" in
  (∀ layers,
     call (setUp_closure md names (rewrap_setUp layers f)) self Examples.store
     = call (setUp_closure md names f) self Examples.store) ∧
  call (setUp_closure md names (rewrap_setUp [(md, ∅)] f)) self Examples.store
  = (assign_tests_to_run "B" (PySet names) Examples.store,
     [EBefore "B"; EUser "B" "A.setUp"], Ok tt).
Proof.
  intros f self md names. split.
  - intros layers.
    apply (proj1 (rewrapping_is_idempotent f self Examples.store
                    ltac:(vm_compute; eauto))).
  - by vm_compute.
Defined.

(** ** Several classes in one run *)

Lemma call_method_state nm self σ v :
  state_of σ (type_of self) = Some v →
  ∃ v', st (call_method nm self σ)
        = assign_tests_to_run (type_of self) v' σ.
Proof.
  intros Hv. unfold call_method. destruct (getattr_method _ _ _) as [f|].
  - destruct (call_state_of f self σ v Hv) as (v' & Hst & _). eauto.
  - exists v. cbn. by rewrite assign_same.
Qed.

Lemma call_method_tagged nm self σ v :
  state_of σ (type_of self) = Some v →
  Forall (λ e, event_class e = type_of self) (tr (call_method nm self σ)).
Proof.
  intros Hv. unfold call_method. destruct (getattr_method _ _ _) as [f|].
  - by eapply (proj1 (call_exec_tagged self)).
  - constructor.
Qed.

Lemma call_method_assign_other nm self c w σ v :
  c ≠ type_of self → state_of σ (type_of self) = Some v →
  call_method nm self (assign_tests_to_run c w σ)
  = (assign_tests_to_run c w (st (call_method nm self σ)),
     tr (call_method nm self σ), res (call_method nm self σ)).
Proof.
  intros Hne Hv. unfold call_method. rewrite getattr_method_assign.
  destruct (getattr_method _ _ _) as [f|]; [|done].
  by eapply (proj1 (call_exec_assign_other self c w Hne)).
Qed.

Lemma state_after_assign σ leaf v v' :
  state_of σ leaf = Some v →
  state_of (assign_tests_to_run leaf v' σ) leaf = Some v'.
Proof. intros Hv. apply state_of_assign_eq. by eapply state_of_is_Some. Qed.

(** A test changes nothing but the set of its class, and all its events
    carry that class. *)
Lemma run_frame self σ v :
  state_of σ (type_of self) = Some v →
  (∃ v', st (run self σ) = assign_tests_to_run (type_of self) v' σ) ∧
  Forall (λ e, event_class e = type_of self) (tr (run self σ)).
Proof.
  intros Hv. unfold run, run_test.
  destruct (call_method_state "setUp" self σ v Hv) as [v1 H1].
  pose proof (call_method_tagged "setUp" self σ v Hv) as T1.
  destruct (call_method "setUp" self σ) as [[σ1 t1] r1].
  cbn in H1, T1. subst σ1. destruct r1 as [[]|e]; [|eauto].
  pose proof (state_after_assign σ _ v v1 Hv) as Hv1.
  destruct (call_method_state (testMethodName self) self _ v1 Hv1)
    as [v2 H2].
  pose proof (call_method_tagged (testMethodName self) self _ v1 Hv1) as T2.
  destruct (call_method (testMethodName self) self _) as [[σ2 t2] r2].
  cbn in H2, T2. subst σ2. rewrite assign_assign in *.
  pose proof (state_after_assign σ _ v v2 Hv) as Hv2.
  destruct (call_method_state "tearDown" self _ v2 Hv2) as [v3 H3].
  pose proof (call_method_tagged "tearDown" self _ v2 Hv2) as T3.
  destruct (call_method "tearDown" self _) as [[σ3 t3] r3].
  cbn in H3, T3. subst σ3. rewrite assign_assign. cbn.
  split; [eauto|]. apply Forall_app. split; [done|]. by apply Forall_app.
Qed.

(** A test commutes with an assignment to the set of another class. *)
Lemma run_assign_other self c w σ v :
  c ≠ type_of self → state_of σ (type_of self) = Some v →
  run self (assign_tests_to_run c w σ)
  = (assign_tests_to_run c w (st (run self σ)),
     tr (run self σ), res (run self σ)).
Proof.
  intros Hne Hv. unfold run, run_test.
  rewrite (call_method_assign_other _ _ _ _ _ v) by done.
  destruct (call_method_state "setUp" self σ v Hv) as [v1 H1].
  destruct (call_method "setUp" self σ) as [[σ1 t1] r1].
  cbn in H1. subst σ1. cbn [st tr res fst snd].
  destruct r1 as [[]|e]; [|done].
  pose proof (state_after_assign σ _ v v1 Hv) as Hv1.
  rewrite (call_method_assign_other _ _ _ _ _ v1) by done.
  destruct (call_method_state (testMethodName self) self _ v1 Hv1)
    as [v2 H2].
  destruct (call_method (testMethodName self) self _) as [[σ2 t2] r2].
  cbn in H2. subst σ2. rewrite assign_assign. cbn [st tr res fst snd].
  pose proof (state_after_assign σ _ v v2 Hv) as Hv2.
  rewrite (call_method_assign_other _ _ _ _ _ v2) by done.
  by destruct (call_method "tearDown" self _) as [[σ3 t3] r3].
Qed.

Lemma run_all_assign_other cls c w suite : ∀ σ v,
  c ≠ cls → (∀ self, self ∈ suite → type_of self = cls) →
  state_of σ cls = Some v →
  run_all suite (assign_tests_to_run c w σ)
  = (assign_tests_to_run c w (st (run_all suite σ)),
     tr (run_all suite σ), res (run_all suite σ)).
Proof.
  induction suite as [|self suite IH]; intros σ v Hne Hall Hv; [done|].
  assert (Hself : type_of self = cls) by (apply Hall; by left).
  cbn [run_all].
  rewrite (run_assign_other self c w σ v) by (by rewrite Hself).
  destruct (run_frame self σ v) as [[v1 H1] _]; [by rewrite Hself|].
  destruct (run self σ) as [[σ1 t1] e1]. cbn in H1. subst σ1.
  cbn [st tr res fst snd]. rewrite Hself.
  rewrite (IH _ v1); [| done | | by eapply state_after_assign].
  - by destruct (run_all suite _) as [[σ2 t2] e2].
  - intros s Hs. apply Hall. by right.
Qed.

Lemma filter_all {A} (P : A → Prop) `{∀ x, Decision (P x)} (l : list A) :
  Forall P l → filter P l = l.
Proof.
  induction 1 as [|x l Hx _ IH]; [done|].
  by rewrite filter_cons_True, IH.
Qed.

Lemma filter_none {A} (P : A → Prop) `{∀ x, Decision (P x)} (l : list A) :
  Forall (λ x, ¬ P x) l → filter P l = [].
Proof.
  induction 1 as [|x l Hx _ IH]; [done|].
  by rewrite filter_cons_False.
Qed.

(** Running a schedule and keeping the events of one class gives what
    running the instances of that class alone gives. *)
Lemma run_all_project cls sched : ∀ σ,
  (∀ self, self ∈ sched → is_Some (state_of σ (type_of self))) →
  is_Some (state_of σ cls) →
  events_of cls (tr (run_all sched σ))
    = tr (run_all (instances_of cls sched) σ) ∧
  state_of (st (run_all sched σ)) cls
    = state_of (st (run_all (instances_of cls sched) σ)) cls.
Proof.
  unfold events_of, instances_of.
  induction sched as [|self sched IH]; intros σ Hall [v Hv]; [done|].
  destruct (Hall self ltac:(left)) as [w Hw].
  destruct (run_frame self σ w Hw) as [[w1 H1] Htag].
  assert (Hall1 : ∀ s, s ∈ sched →
            is_Some (state_of (assign_tests_to_run (type_of self) w1 σ)
                       (type_of s))).
  { intros s Hs. destruct (decide (type_of self = type_of s)) as [He|He].
    - rewrite <- He. rewrite (state_after_assign _ _ w) by done. eauto.
    - rewrite state_of_assign_ne by done. apply Hall. by right. }
  destruct (decide (type_of self = cls)) as [Hcls|Hcls].
  - rewrite filter_cons_True by done. cbn [run_all].
    destruct (run self σ) as [[σ1 t1] e1]. cbn in H1, Htag. subst σ1.
    destruct (IH _ Hall1) as [IHt IHs].
    { rewrite <- Hcls. rewrite (state_after_assign _ _ w) by done. eauto. }
    destruct (run_all sched _) as [[σ2 t2] e2].
    destruct (run_all (filter _ sched) _) as [[σ3 t3] e3].
    cbn in *. split; [|done].
    rewrite filter_app, IHt. f_equal. apply filter_all.
    by rewrite <- Hcls.
  - rewrite filter_cons_False by done. cbn [run_all].
    destruct (run self σ) as [[σ1 t1] e1]. cbn in H1, Htag. subst σ1.
    destruct (IH _ Hall1) as [IHt IHs].
    { rewrite state_of_assign_ne by done. eauto. }
    assert (Hfil : ∀ s, s ∈ filter (λ s', type_of s' = cls) sched →
              type_of s = cls).
    { by intros s [Hs _]%list_elem_of_filter. }
    rewrite (run_all_assign_other cls _ _ _ σ v Hcls Hfil Hv) in IHt, IHs.
    destruct (run_all sched _) as [[σ2 t2] e2].
    destruct (run_all (filter _ sched) σ) as [[σ3 t3] e3].
    cbn in *. split.
    + rewrite filter_app, IHt, filter_none; [done|].
      eapply Forall_impl; [done|]. cbn. intros e ->. done.
    + rewrite IHs. by rewrite state_of_assign_ne.
Qed.

Lemma instances_of_suite cls sched :
  instances_of cls sched
  = suite_of cls (testMethodName <$> instances_of cls sched).
Proof.
  unfold instances_of, suite_of.
  induction sched as [|[c n] sched IH]; [done|].
  destruct (decide (c = cls)) as [->|Hne].
  - rewrite filter_cons_True by done. cbn. by rewrite <- IH.
  - by rewrite filter_cons_False.
Qed.

(** C7.  Two distinct classes [B] and [C] whose tests run interleaved,
    in any order: the events of [B] are those of a run of [B] alone, the
    events of [C] those of a run of [C] alone, and each class sees its
    before-class hook once and its after-class hook once.  Nothing that
    happens for one class changes the set or the hooks of the other. *)
Theorem interleaved_classes_are_isolated σ B C sched :
  reachable σ → B ≠ C →
  is_Some (σ !! B) → B ≠ "TestCase" → is_Some (σ !! C) → C ≠ "TestCase" →
  completes σ B → completes σ C →
  state_of σ B = Some PyNone → state_of σ C = Some PyNone →
  (∀ self, self ∈ sched → type_of self = B ∨ type_of self = C) →
  testMethodName <$> instances_of B sched
    ≡ₚ elements (getTestCaseNames σ B) →
  testMethodName <$> instances_of C sched
    ≡ₚ elements (getTestCaseNames σ C) →
  instances_of B sched ≠ [] → instances_of C sched ≠ [] →
  events_of B (tr (run_all sched σ))
    = tr (run_all (instances_of B sched) σ) ∧
  events_of C (tr (run_all sched σ))
    = tr (run_all (instances_of C sched) σ) ∧
  once_each B (events_of B (tr (run_all sched σ))) ∧
  once_each C (events_of C (tr (run_all sched σ))) ∧
  state_of (st (run_all sched σ)) B = Some PyNone ∧
  state_of (st (run_all sched σ)) C = Some PyNone.
Proof.
  intros Hσ Hne HB HBne HC HCne HcB HcC HvB HvC Hall HpB HpC HnB HnC.
  assert (Hall' : ∀ self, self ∈ sched →
            is_Some (state_of σ (type_of self))).
  { intros self [->| ->]%Hall; eauto. }
  destruct (run_all_project B sched σ Hall') as [HtB HsB]; [eauto|].
  destruct (run_all_project C sched σ Hall') as [HtC HsC]; [eauto|].
  assert (HoB : testMethodName <$> instances_of B sched ≠ []).
  { by destruct (instances_of B sched). }
  assert (HoC : testMethodName <$> instances_of C sched ≠ []).
  { by destruct (instances_of C sched). }
  destruct (run_all_once_each σ B _ Hσ HB HBne HcB HvB HpB HoB)
    as [HstB HonceB].
  destruct (run_all_once_each σ C _ Hσ HC HCne HcC HvC HpC HoC)
    as [HstC HonceC].
  rewrite <- instances_of_suite in HstB, HonceB, HstC, HonceC.
  rewrite HtB, HtC, HsB, HsC, HstB, HstC. done.
Qed.

Lemma completes_C : completes Examples.store "C".
Proof. unfold completes. split_and!; vm_compute; done. Qed.

Lemma interleaved_classes_are_isolated_witness :
  let sched := [Instance "B" "test3"; Instance "C" "testU1";
                Instance "B" "test1"; Instance "C" "testU2";
                Instance "B" "test2"] in
  events_of "B" (tr (run_all sched Examples.store))
    = tr (run_all (instances_of "B" sched) Examples.store) ∧
  events_of "C" (tr (run_all sched Examples.store))
    = tr (run_all (instances_of "C" sched) Examples.store) ∧
  once_each "B" (events_of "B" (tr (run_all sched Examples.store))) ∧
  once_each "C" (events_of "C" (tr (run_all sched Examples.store))) ∧
  state_of (st (run_all sched Examples.store)) "B" = Some PyNone ∧
  state_of (st (run_all sched Examples.store)) "C" = Some PyNone.
Proof.
  intros sched.
  apply (interleaved_classes_are_isolated Examples.store "B" "C" sched).
  - apply sample_store_reachable.
  - discriminate.
  - vm_compute. eauto.
  - discriminate.
  - vm_compute. eauto.
  - discriminate.
  - apply completes_B.
  - apply completes_C.
  - vm_compute. reflexivity.
  - vm_compute. reflexivity.
  - intros self Hs. repeat (apply elem_of_cons in Hs as [->|Hs]);
      [left|right|left|right|left|]; try reflexivity.
    by apply elem_of_nil in Hs.
  - vm_compute. reflexivity.
  - vm_compute. reflexivity.
  - discriminate.
  - discriminate.
Defined.
